(** * The index manager of the per-host blob queue

    A shallow embedding of [package index]: the [IndexManager] with its
    write-ahead log, the grouped-commit counters and their syncer, the
    cooperative Pop handshake between the manager and the [Index], and the
    manager's construction and shutdown.

    Unsigned 64-bit counters are integers in [0, 2^64) with the wrap-around
    of [atomic.Uint64.Add] written out; [time.Duration] and [int] are signed
    64-bit integers.  Goroutines and unbuffered channels are modelled by a
    small scheduler ([Module Go]): every goroutine is a program counter, a
    program maps a program counter and the shared memory to the next
    instruction, and a configuration steps by an internal move of one
    goroutine or by a rendezvous of a sender and a receiver. *)

From Stdlib Require Import ZArith Lia List Bool QArith Qminmax Sorted.
From stdpp Require Import base option list gmap strings relations.

Local Open Scope Z_scope.

(** ** Machine integers *)

Definition u64_mod : Z := 2 ^ 64.
Definition u64_max : Z := 2 ^ 64 - 1.

(** [atomic.Uint64] arithmetic wraps modulo 2^64. *)
Definition u64 (z : Z) : Z := z mod u64_mod.

(** [int64] arithmetic ([time.Duration], [atomic.Int64]) wraps into
    [-2^63, 2^63). *)
Definition i64 (z : Z) : Z := (z + 2 ^ 63) mod 2 ^ 64 - 2 ^ 63.

(** ** Data model *)

Inductive Operation := OpAdd | OpPop.

Record WALEntry := mkWALEntry {
  Op : Operation;
  Host : string;
  BlobID : string;
  Position : Z;
  Size : Z
}.

Record blob := mkBlob {
  id : string;
  position : Z;
  size : Z
}.

Inductive error :=
| ErrIO                                   (* an I/O failure of the file *)
| ErrDuplicate                            (* Index.add: host+id present *)
| ErrHostEmpty                            (* Index.pop: no blob queued *)
| ErrWALNotWritten                        (* Index.pop told that the WAL append failed *)
| ErrSyncerRunning                        (* Close: walCommitsSyncer still running *)
| Wrapped (msg : string) (cause : error). (* fmt.Errorf("msg: %w", cause) *)

Definition chan := nat.

(** A file holding gob-encoded records: the records it holds, the outcomes
    of the write attempts still to come ([true]: the write fails), the
    outcomes of the fsyncs still to come (whether it fails, and the
    nanoseconds its caller measures around it), and whether it was closed. *)
Record File := mkFile {
  records : list WALEntry;
  writeFaults : list bool;
  syncFaults : list (bool * Z);
  closed : bool
}.

(** The [IndexManager] struct.  Pointers and channels that
    [NewIndexManager] sets only under [useCommit] are [None] (nil)
    otherwise.  The gob encoders and decoders are folded into the files
    they wrap; [queueDirPath] and [lastDumpTime], which no function below
    reads, are left out, and so are the open flags of the WAL file (the
    [O_SYNC] of a manager without [useCommit] has no counterpart here). *)
Record IndexManager := mkIM {
  locked : bool;                       (* the embedded sync.Mutex *)
  hostIndex : gmap string (list blob);
  indexFile : File;
  dumpTicker : bool;                   (* the ticker runs *)
  opsSinceDump : Z;
  totalOps : Z;
  walFile : File;
  useCommit : bool;
  walCommit : option Z;                (* flying commit id *)
  walCommited : option Z;              (* durable commit id *)
  walNotifyListeners : option Z;
  walCommitedNotify : option chan;
  walSyncerRunning : bool;
  walStopChan : option chan;
  WalIoPercent : Z;
  WalMinInterval : Z;
  stopChan : option chan
}.

Definition set_locked (b : bool) (im : IndexManager) : IndexManager :=
  mkIM b (hostIndex im) (indexFile im) (dumpTicker im) (opsSinceDump im)
       (totalOps im) (walFile im) (useCommit im) (walCommit im)
       (walCommited im) (walNotifyListeners im) (walCommitedNotify im)
       (walSyncerRunning im) (walStopChan im) (WalIoPercent im)
       (WalMinInterval im) (stopChan im).

Definition set_hostIndex (ix : gmap string (list blob)) (im : IndexManager)
  : IndexManager :=
  mkIM (locked im) ix (indexFile im) (dumpTicker im) (opsSinceDump im)
       (totalOps im) (walFile im) (useCommit im) (walCommit im)
       (walCommited im) (walNotifyListeners im) (walCommitedNotify im)
       (walSyncerRunning im) (walStopChan im) (WalIoPercent im)
       (WalMinInterval im) (stopChan im).

Definition set_indexFile (f : File) (im : IndexManager) : IndexManager :=
  mkIM (locked im) (hostIndex im) f (dumpTicker im) (opsSinceDump im)
       (totalOps im) (walFile im) (useCommit im) (walCommit im)
       (walCommited im) (walNotifyListeners im) (walCommitedNotify im)
       (walSyncerRunning im) (walStopChan im) (WalIoPercent im)
       (WalMinInterval im) (stopChan im).

Definition set_dumpTicker (b : bool) (im : IndexManager) : IndexManager :=
  mkIM (locked im) (hostIndex im) (indexFile im) b (opsSinceDump im)
       (totalOps im) (walFile im) (useCommit im) (walCommit im)
       (walCommited im) (walNotifyListeners im) (walCommitedNotify im)
       (walSyncerRunning im) (walStopChan im) (WalIoPercent im)
       (WalMinInterval im) (stopChan im).

Definition set_ops (since total : Z) (im : IndexManager) : IndexManager :=
  mkIM (locked im) (hostIndex im) (indexFile im) (dumpTicker im) since
       total (walFile im) (useCommit im) (walCommit im)
       (walCommited im) (walNotifyListeners im) (walCommitedNotify im)
       (walSyncerRunning im) (walStopChan im) (WalIoPercent im)
       (WalMinInterval im) (stopChan im).

Definition set_walFile (f : File) (im : IndexManager) : IndexManager :=
  mkIM (locked im) (hostIndex im) (indexFile im) (dumpTicker im)
       (opsSinceDump im) (totalOps im) f (useCommit im) (walCommit im)
       (walCommited im) (walNotifyListeners im) (walCommitedNotify im)
       (walSyncerRunning im) (walStopChan im) (WalIoPercent im)
       (WalMinInterval im) (stopChan im).

Definition set_walCommit (c : option Z) (im : IndexManager) : IndexManager :=
  mkIM (locked im) (hostIndex im) (indexFile im) (dumpTicker im)
       (opsSinceDump im) (totalOps im) (walFile im) (useCommit im) c
       (walCommited im) (walNotifyListeners im) (walCommitedNotify im)
       (walSyncerRunning im) (walStopChan im) (WalIoPercent im)
       (WalMinInterval im) (stopChan im).

Definition set_walCommited (c : option Z) (im : IndexManager) : IndexManager :=
  mkIM (locked im) (hostIndex im) (indexFile im) (dumpTicker im)
       (opsSinceDump im) (totalOps im) (walFile im) (useCommit im)
       (walCommit im) c (walNotifyListeners im) (walCommitedNotify im)
       (walSyncerRunning im) (walStopChan im) (WalIoPercent im)
       (WalMinInterval im) (stopChan im).

Definition set_walNotifyListeners (c : option Z) (im : IndexManager)
  : IndexManager :=
  mkIM (locked im) (hostIndex im) (indexFile im) (dumpTicker im)
       (opsSinceDump im) (totalOps im) (walFile im) (useCommit im)
       (walCommit im) (walCommited im) c (walCommitedNotify im)
       (walSyncerRunning im) (walStopChan im) (WalIoPercent im)
       (WalMinInterval im) (stopChan im).

Definition set_walSyncerRunning (b : bool) (im : IndexManager)
  : IndexManager :=
  mkIM (locked im) (hostIndex im) (indexFile im) (dumpTicker im)
       (opsSinceDump im) (totalOps im) (walFile im) (useCommit im)
       (walCommit im) (walCommited im) (walNotifyListeners im)
       (walCommitedNotify im) b (walStopChan im) (WalIoPercent im)
       (WalMinInterval im) (stopChan im).

Definition set_WalIoPercent (p : Z) (im : IndexManager) : IndexManager :=
  mkIM (locked im) (hostIndex im) (indexFile im) (dumpTicker im)
       (opsSinceDump im) (totalOps im) (walFile im) (useCommit im)
       (walCommit im) (walCommited im) (walNotifyListeners im)
       (walCommitedNotify im) (walSyncerRunning im) (walStopChan im) p
       (WalMinInterval im) (stopChan im).

(** ** The Index

    The source of [Index] is not part of the files at hand; its two
    mutators are modelled from the specification. *)

(** Modelled from the spec: [Index.add] (absent from the sources) appends
    the blob to the host's queue and rejects an id already queued for that
    host with [ErrDuplicate]. *)
Definition index_add (host bid : string) (pos sz : Z)
    (ix : gmap string (list blob)) : error + gmap string (list blob) :=
  let q := default [] (ix !! host) in
  if existsb (fun b => String.eqb (id b) bid) q
  then inl ErrDuplicate
  else inr (<[host := q ++ [mkBlob bid pos sz]]> ix).

(** Removing the head of a host's queue; a host whose queue becomes empty
    is dropped from the map ([IsEmpty] tests [len(index) == 0]). *)
Definition index_remove_head (host : string) (ix : gmap string (list blob))
  : gmap string (list blob) :=
  match ix !! host with
  | Some (_ :: (b :: q)) => <[host := b :: q]> ix
  | Some (_ :: []) => delete host ix
  | _ => ix
  end.

(** The oldest blob queued for a host, if any. *)
Definition index_head (host : string) (ix : gmap string (list blob))
  : option blob :=
  match ix !! host with
  | Some (b :: _) => Some b
  | _ => None
  end.

(** ** The write-ahead log *)

(** Appending one record to a file: a closed file and a failing write leave
    the records as they are. *)
Definition file_append (e : WALEntry) (f : File) : option error * File :=
  if closed f then (Some ErrIO, f)
  else match writeFaults f with
       | true :: rest =>
           (Some ErrIO, mkFile (records f) rest (syncFaults f) (closed f))
       | _ =>
           (None, mkFile (records f ++ [e]) (tail (writeFaults f))
                         (syncFaults f) (closed f))
       end.

(** [f.Sync()], with the time measured around it. *)
Definition file_sync (f : File) : option error * Z * File :=
  if closed f then (Some ErrIO, 0, f)
  else match syncFaults f with
       | (true, d) :: rest =>
           (Some ErrIO, d, mkFile (records f) (writeFaults f) rest (closed f))
       | (false, d) :: rest =>
           (None, d, mkFile (records f) (writeFaults f) rest (closed f))
       | [] => (None, 0, f)
       end.

(** [f.Close()]: closing twice is an error. *)
Definition file_close (f : File) : option error * File :=
  if closed f then (Some ErrIO, f)
  else (None, mkFile (records f) (writeFaults f) (syncFaults f) true).

(** Modelled from the spec: [unsafeWriteToWAL] (absent from the sources)
    encodes one record and appends it to the WAL file; a write failure is
    returned to the caller. *)
Definition unsafeWriteToWAL (op : Operation) (host id : string)
    (position size : Z) (im : IndexManager) : option error * IndexManager :=
  let '(err, f) := file_append (mkWALEntry op host id position size)
                               (walFile im) in
  (err, set_walFile f im).

(** [unsafeWalSync]: [im.walFile.Sync()]; the second component is the time
    the syncer measures around the call. *)
Definition unsafeWalSync (im : IndexManager)
  : option error * Z * IndexManager :=
  let '(err, d, f) := file_sync (walFile im) in (err, d, set_walFile f im).

(** ** Commit counters *)

(** [IsWALCommited]: [im.walCommited.Load() >= commit].  [None] is the
    nil-pointer panic of a manager built without [useCommit]. *)
Definition IsWALCommited (commit : Z) (im : IndexManager) : option bool :=
  d ← walCommited im; Some (bool_decide (d >= commit)).

(** [WALCommit]: [im.walCommit.Add(1)], the new value. *)
Definition WALCommit (im : IndexManager) : option (Z * IndexManager) :=
  f ← walCommit im;
  Some (u64 (f + 1), set_walCommit (Some (u64 (f + 1))) im).

(** ** Add

    Each function below is the critical section of the method: the body
    between [im.Lock()] and the deferred [im.Unlock()].  The result pairs
    what the method returns with the manager after the call; [None] is a
    runtime panic. *)

Definition wal_failed : string := "failed to write to WAL".
Definition index_failed : string := "failed to update in-memory index".

Definition addCommitted (host id : string) (position size : Z)
    (im : IndexManager) : option ((Z * option error) * IndexManager) :=
  match unsafeWriteToWAL OpAdd host id position size im with
  | (Some e, im1) => Some ((0, Some (Wrapped wal_failed e)), im1)
  | (None, im1) =>
      '(commit, im2) ← WALCommit im1;
      match index_add host id position size (hostIndex im2) with
      | inl e => Some ((commit, Some (Wrapped index_failed e)), im2)
      | inr ix =>
          Some ((commit, None),
                set_ops (i64 (opsSinceDump im2 + 1)) (u64 (totalOps im2 + 1))
                        (set_hostIndex ix im2))
      end
  end.

Definition add (host id : string) (position size : Z) (im : IndexManager)
  : option error * IndexManager :=
  match unsafeWriteToWAL OpAdd host id position size im with
  | (Some e, im1) => (Some (Wrapped wal_failed e), im1)
  | (None, im1) =>
      match index_add host id position size (hostIndex im1) with
      | inl e => (Some (Wrapped index_failed e), im1)
      | inr ix =>
          (None,
           set_ops (i64 (opsSinceDump im1 + 1)) (u64 (totalOps im1 + 1))
                   (set_hostIndex ix im1))
      end
  end.

Definition Add (host id : string) (position size : Z) (im : IndexManager)
  : option ((Z * option error) * IndexManager) :=
  if useCommit im then addCommitted host id position size im
  else let '(err, im') := add host id position size im in
       Some ((0, err), im').

(** ** Goroutines and unbuffered channels *)

Module Go.
Section Scheduler.
Context {mem tstate val : Type}.

(** What a goroutine does next.  A channel operand is [None] for a nil
    channel: a send to it and a receive from it never complete.  A
    receive offers several channels ([select]); with [dflt] it is a
    [select] with a [default] branch.  The continuation of a receive
    gets [None] from a closed channel (the zero value). *)
Inductive instr :=
| Tau (m : mem) (t : tstate)
| Make (k : chan -> tstate)
| Spawn (g : tstate) (t : tstate)
| Send (c : option chan) (v : val) (t : tstate)
| Recv (alts : list (option chan * (option val -> tstate)))
       (dflt : option tstate)
| CloseCh (c : option chan) (t : tstate)
| Crash
| Wait
| Halt.

Variable prog : tstate -> mem -> instr.

Record config := mkConfig {
  shared : mem;
  next_chan : chan;
  closed_chans : list chan;
  threads : list tstate;
  crashed : bool
}.

Definition is_closed (c : config) (ch : chan) : bool :=
  existsb (Nat.eqb ch) (closed_chans c).

Definition on_chan (ch : chan) (a : option chan) : bool :=
  match a with Some ch' => Nat.eqb ch' ch | None => false end.

Definition set_thread (i : nat) (t : tstate) (c : config) : config :=
  mkConfig (shared c) (next_chan c) (closed_chans c)
           (<[i := t]> (threads c)) (crashed c).

Definition crash (c : config) : config :=
  mkConfig (shared c) (next_chan c) (closed_chans c) (threads c) true.

(** The continuations with which goroutine [j] is ready to take a value
    from channel [ch]. *)
Definition receivers (c : config) (ch : chan) (j : nat)
  : list (option val -> tstate) :=
  match threads c !! j with
  | Some t =>
      match prog t (shared c) with
      | Recv alts _ =>
          map snd (List.filter (fun a => on_chan ch (fst a)) alts)
      | _ => []
      end
  | None => []
  end.

(** Some goroutine is blocked in a send on [ch]. *)
Definition sender_ready (c : config) (ch : chan) : bool :=
  existsb (fun t => match prog t (shared c) with
                    | Send a _ _ => on_chan ch a
                    | _ => false
                    end) (threads c).

(** A receive case is ready when its channel is closed or has a sender. *)
Definition alt_ready (c : config) (a : option chan) : bool :=
  match a with
  | Some ch => is_closed c ch || sender_ready c ch
  | None => false
  end.

(** The moves goroutine [i] can make; a rendezvous is listed with its
    sender. *)
Definition thread_steps (c : config) (i : nat) : list config :=
  match threads c !! i with
  | None => []
  | Some t =>
      match prog t (shared c) with
      | Tau m t' =>
          [mkConfig m (next_chan c) (closed_chans c)
                    (<[i := t']> (threads c)) false]
      | Make k =>
          [mkConfig (shared c) (S (next_chan c)) (closed_chans c)
                    (<[i := k (next_chan c)]> (threads c)) false]
      | Spawn g t' =>
          [mkConfig (shared c) (next_chan c) (closed_chans c)
                    (<[i := t']> (threads c) ++ [g]) false]
      | Send None _ _ => []
      | Send (Some ch) v t' =>
          if is_closed c ch then [crash c]
          else flat_map
                 (fun j => if Nat.eqb i j then []
                           else map (fun k => set_thread j (k (Some v))
                                                (set_thread i t' c))
                                    (receivers c ch j))
                 (seq 0 (length (threads c)))
      | Recv alts dflt =>
          flat_map (fun a => match fst a with
                             | Some ch =>
                                 if is_closed c ch
                                 then [set_thread i (snd a None) c]
                                 else []
                             | None => []
                             end) alts
          ++ match dflt with
             | Some t' =>
                 if existsb (fun a => alt_ready c (fst a)) alts then []
                 else [set_thread i t' c]
             | None => []
             end
      | CloseCh None _ => [crash c]
      | CloseCh (Some ch) t' =>
          if is_closed c ch then [crash c]
          else [mkConfig (shared c) (next_chan c) (ch :: closed_chans c)
                         (<[i := t']> (threads c)) false]
      | Crash => [crash c]
      | Wait => []
      | Halt => []
      end
  end.

Definition steps (c : config) : list config :=
  if crashed c then []
  else flat_map (thread_steps c) (seq 0 (length (threads c))).

Definition step (c c' : config) : Prop := c' ∈ steps c.

(** [run c cs]: [cs] lists the configurations of a run that starts from
    [c], one step apart. *)
Fixpoint run (c : config) (cs : list config) : Prop :=
  match cs with
  | [] => True
  | c' :: cs' => step c c' /\ run c' cs'
  end.

(** Every run from [c] is finite, [I] holds at each of its
    configurations, and the configuration it ends in, where no goroutine
    can move, satisfies [P]. *)
Inductive safe_run (I P : config -> Prop) : config -> Prop :=
| sr_end c : I c -> steps c = [] -> P c -> safe_run I P c
| sr_step c :
    I c -> steps c <> [] ->
    (forall c', c' ∈ steps c -> safe_run I P c') ->
    safe_run I P c.

(** One goroutine on its own: internal moves are taken, a receive takes
    the next value of [inbox] on its first case, and the run stops when
    the goroutine halts, blocks or the fuel ends.  The result lists the
    memory after every move together with the value received, if any. *)
Fixpoint solo (fuel : nat) (inbox : list val) (t : tstate) (m : mem)
  : list (option val * mem) * tstate * list val :=
  match fuel with
  | O => ([], t, inbox)
  | S fuel' =>
      match prog t m with
      | Tau m' t' =>
          let '(tr, t'', rest) := solo fuel' inbox t' m' in
          ((None, m') :: tr, t'', rest)
      | Recv ((_, k) :: _) _ =>
          match inbox with
          | v :: inbox' =>
              let '(tr, t'', rest) := solo fuel' inbox' (k (Some v)) m in
              ((Some v, m) :: tr, t'', rest)
          | [] => ([], t, [])
          end
      | _ => ([], t, inbox)
      end
  end.

(** A schedule names, move after move, which of the possible moves is
    taken; [follow] lists the configurations it leads through. *)
Definition pick (k : nat) (c : config) : config := nth k (steps c) c.

Fixpoint follow (sched : list nat) (c : config) : list config :=
  match sched with
  | [] => []
  | k :: s => pick k c :: follow s (pick k c)
  end.

Fixpoint in_range (sched : list nat) (c : config) : bool :=
  match sched with
  | [] => true
  | k :: s => (k <? length (steps c))%nat && in_range s (pick k c)
  end.

(** The internal move of a goroutine, if that is what it does next. *)
Definition tau (t : tstate) (m : mem) : option (mem * tstate) :=
  match prog t m with
  | Tau m' t' => Some (m', t')
  | _ => None
  end.

End Scheduler.
Arguments instr : clear implicits.
Arguments config : clear implicits.
End Go.

(** ** Snapshot and recovery

    [performDump], [loadIndex], [RecoverFromCrash] and [unsafeIsWALEmpty]
    are called by the code at hand but defined elsewhere.  Files are
    modelled by the records they hold; the gob codec and a record cut short
    by a crash are outside the model. *)

(** The snapshot of an index: one [OpAdd] record per blob, host by host,
    each host's blobs oldest first. *)
Definition snapshot_entries (ix : gmap string (list blob)) : list WALEntry :=
  flat_map (fun hq => map (fun b => mkWALEntry OpAdd (fst hq) (id b)
                                               (position b) (size b))
                          (snd hq))
           (map_to_list ix).

(** Applying one record on replay: an [OpAdd] that collides is skipped, an
    [OpPop] that does not name the head of the host's queue is skipped. *)
Definition apply_entry (ix : gmap string (list blob)) (e : WALEntry)
  : gmap string (list blob) :=
  match Op e with
  | OpAdd =>
      match index_add (Host e) (BlobID e) (Position e) (Size e) ix with
      | inr ix' => ix'
      | inl _ => ix
      end
  | OpPop =>
      match index_head (Host e) ix with
      | Some b => if String.eqb (id b) (BlobID e)
                  then index_remove_head (Host e) ix else ix
      | None => ix
      end
  end.

Definition replay (es : list WALEntry) (ix : gmap string (list blob))
  : gmap string (list blob) :=
  fold_left apply_entry es ix.

(** Modelled from the spec: [performDump] (absent from the sources) writes
    the whole index to a temporary snapshot, renames it over the snapshot
    file, truncates the WAL and resets [opsSinceDump]; a failing snapshot
    write leaves the snapshot and the WAL as they were. *)
Definition performDump (im : IndexManager) : option error * IndexManager :=
  let ixf := indexFile im in
  match writeFaults ixf with
  | true :: rest =>
      (Some ErrIO,
       set_indexFile (mkFile (records ixf) rest (syncFaults ixf) (closed ixf))
                     im)
  | _ =>
      (None,
       set_ops 0 (totalOps im)
         (set_walFile (mkFile [] (writeFaults (walFile im))
                              (syncFaults (walFile im)) (closed (walFile im)))
            (set_indexFile (mkFile (snapshot_entries (hostIndex im))
                                   (tail (writeFaults ixf)) (syncFaults ixf)
                                   (closed ixf))
                           im)))
  end.

(** Modelled from the spec: [loadIndex] (absent from the sources) streams
    the snapshot file into a fresh index; an empty snapshot gives the empty
    index. *)
Definition loadIndex (im : IndexManager) : option error * IndexManager :=
  (None, set_hostIndex (replay (records (indexFile im)) ∅) im).

(** Modelled from the spec: [RecoverFromCrash] (absent from the sources)
    loads the snapshot, replays the WAL on top of it record by record, and
    then takes a fresh snapshot, which truncates the WAL. *)
Definition RecoverFromCrash (im : IndexManager)
  : option error * IndexManager :=
  let '(_, im1) := loadIndex im in
  let im2 := set_hostIndex (replay (records (walFile im1)) (hostIndex im1))
                           im1 in
  performDump im2.

(** Modelled from the spec: [unsafeIsWALEmpty] (absent from the sources)
    tells whether the WAL file holds no record; [stat_fails] is the failure
    of the underlying file-size query. *)
Definition unsafeIsWALEmpty (stat_fails : bool) (im : IndexManager)
  : bool * option error :=
  if stat_fails then (false, Some ErrIO)
  else (bool_decide (records (walFile im) = []), None).

(** ** The syncer's sleep time

    [sleepTime := lastTrySyncDuration *
                  time.Duration((100-im.WalIoPercent)/im.WalIoPercent)],
    raised to [im.WalMinInterval].  The quotient is Go's integer division
    (truncating), the product an [int64] product. *)
Definition sleepTime (lastTrySyncDuration WalIoPercent WalMinInterval : Z)
  : Z :=
  let sleepTime :=
    i64 (lastTrySyncDuration * Z.quot (100 - WalIoPercent) WalIoPercent) in
  if sleepTime <? WalMinInterval then WalMinInterval else sleepTime.

(** The sleep time as the specification words it,
    [max(WalMinInterval, lastSyncDuration * (100 - p) / p)], over the
    rationals. *)
Definition spec_sleep (lastSyncDuration p WalMinInterval : Z) : Q :=
  Qmax (inject_Z WalMinInterval)
               (Qdiv (Qmult (inject_Z lastSyncDuration) (inject_Z (100 - p)))
                     (inject_Z p)).

(** The same formula with the product taken first and the quotient
    truncated, as integer code would evaluate it from left to right. *)
Definition spec_sleep_int (lastSyncDuration p WalMinInterval : Z) : Z :=
  Z.max WalMinInterval (Z.quot (lastSyncDuration * (100 - p)) p).

(** ** The goroutines of the index manager *)

(** Values sent over the channels of the package. *)
Inductive val :=
| VBlob (b : option blob)   (* *blob; nil is None *)
| VBool (b : bool)
| VErr (e : option error)   (* error; nil is None *)
| VU64 (z : Z)
| VUnit.                    (* struct{}{} *)

(** The memory the goroutines share: the manager, the named results
    [id, position, size] of the Pop calls under way (kept under the call's
    [blobChan]), what was logged, and the durations passed to
    [time.Sleep], in order. *)
Record memory := mkMem {
  mgr : IndexManager;
  frames : list (chan * blob);
  slog : list string;
  slept : list Z
}.

Definition on_mgr (f : IndexManager -> IndexManager) (m : memory) : memory :=
  mkMem (f (mgr m)) (frames m) (slog m) (slept m).

Definition with_mgr (im : IndexManager) (m : memory) : memory :=
  mkMem im (frames m) (slog m) (slept m).

Definition log (msg : string) (m : memory) : memory :=
  mkMem (mgr m) (frames m) (slog m ++ [msg]) (slept m).

Definition sleep (d : Z) (m : memory) : memory :=
  mkMem (mgr m) (frames m) (slog m) (slept m ++ [d]).

Fixpoint frame_of (b : chan) (fs : list (chan * blob)) : blob :=
  match fs with
  | [] => mkBlob "" 0 0
  | (c, r) :: fs' => if Nat.eqb c b then r else frame_of b fs'
  end.

Definition set_frame (b : chan) (r : blob) (m : memory) : memory :=
  mkMem (mgr m) ((b, r) :: frames m) (slog m) (slept m).

(** The locals of one Pop call that its helper goroutine shares. *)
Record pop_frame := mkPF {
  pf_host : string;
  pf_commit : bool;          (* popCommitted rather than pop *)
  blobChan : chan;
  WALSuccessChan : chan;
  errChan : chan
}.

(** What Pop returns: [(commit, id, position, size, err)]. *)
Definition pop_result : Type := Z * string * Z * Z * option error.

Inductive pop_pc :=
| P_IndexPeek                      (* Index.pop: look at the host's queue *)
| P_IndexSend (b : option blob)    (* Index.pop: blobChan <- blob *)
| P_IndexWait                      (* Index.pop: <-WALSuccessChan *)
| P_IndexRemove                    (* Index.pop: drop the head *)
| P_IndexReturned (err : option error)
| P_Commit
| P_Return (r : pop_result)        (* deferred close(errChan) *)
| P_CloseWALSuccess (r : pop_result)
| P_CloseBlob (r : pop_result)
| P_Unlock (r : pop_result)
| P_Done (r : pop_result).

Inductive helper_pc :=
| H_Recv
| H_Write (b : blob)
| H_SendErr (b : blob) (e : error)
| H_SendFalse (b : blob)
| H_Assign (b : blob)
| H_SendTrue
| H_SendNil
| H_Done.

Inductive close_pc :=
| C_Start
| C_SendStop
| C_SendWalStop
| C_WaitWalStop
| C_Dump
| C_CloseWal
| C_CloseIndex
| C_CheckSyncer
| C_Return (err : option error)
| C_Done (err : option error).

Inductive forward_pc :=
| F_Select
| F_Forward (stop : val)
| F_Log (err : option error)
| F_Done.

Inductive dump_pc :=
| D_Select
| D_Dump
| D_SendErr (e : error)
| D_Done.

(** The locals of [walCommitsSyncer]. *)
Record syncer_locals := mkSL {
  stopping : bool;
  lastTrySyncDuration : Z;
  flyingCommit : Z;
  listeners : Z;
  sent : Z                   (* the loop variable i of the notify loop *)
}.

Inductive syncer_pc :=
| S_Start
| S_Validate
| S_Top (l : syncer_locals)
| S_Select (l : syncer_locals)
| S_Stopping (l : syncer_locals)
| S_Sleep (l : syncer_locals)
| S_Load (l : syncer_locals)
| S_Lock (l : syncer_locals)
| S_Sync (l : syncer_locals)
| S_Store (l : syncer_locals)
| S_Drain (l : syncer_locals)
| S_Listeners (l : syncer_locals)
| S_Notify (l : syncer_locals)
| S_Exit
| S_ClearRunning
| S_Done.

Inductive await_pc :=
| W_Start
| W_Check
| W_Inc
| W_Recv
| W_Dec (idFromChan : Z)
| W_Done.

Inductive add_pc :=
| A_Lock
| A_Body
| A_Unlock (r : Z * option error)
| A_Done (r : Z * option error).

Inductive goroutine :=
| GPop_Lock (host : string)
| GPop_MakeBlobChan (host : string) (uc : bool)
| GPop_MakeWALSuccessChan (host : string) (uc : bool) (b : chan)
| GPop_MakeErrChan (host : string) (uc : bool) (b w : chan)
| GPop_Go (fr : pop_frame)
| GPop (fr : pop_frame) (pc : pop_pc)
| GPopHelper (fr : pop_frame) (pc : helper_pc)
| GAdd (host bid : string) (pos sz : Z) (pc : add_pc)
| GWALCommit (n : nat)
| GAwait (commit : Z) (pc : await_pc)
| GClose (pc : close_pc)
| GForward (errCh stopCh : chan) (pc : forward_pc)
| GDump (errCh stopCh tick : chan) (pc : dump_pc)
| GTicker (tick : chan)
| GSyncer (pc : syncer_pc).

Abbreviation instr := (Go.instr memory goroutine val).

(** *** Pop

    [Pop] dispatches on [useCommit] to [pop] or [popCommitted]; the two
    differ only in the commit id taken at the end.  The caller's goroutine
    runs [Index.pop] between the [go] statement that starts the helper and
    the receive from [errChan]. *)

(** Modelled from the spec: [Index.pop] (absent from the sources) peeks at
    the oldest blob and sends it on [blobChan], then waits on
    [WALSuccessChan]: [true] removes the blob, [false] leaves the queue as
    it is and returns an error.  With no blob queued it sends nil on
    [blobChan] and returns [ErrHostEmpty] without waiting. *)
Definition index_pop (fr : pop_frame) (pc : pop_pc) (m : memory)
  : option instr :=
  match pc with
  | P_IndexPeek =>
      Some (Go.Tau m (GPop fr (P_IndexSend
                                 (index_head (pf_host fr)
                                             (hostIndex (mgr m))))))
  | P_IndexSend None =>
      Some (Go.Send (Some (blobChan fr)) (VBlob None)
                    (GPop fr (P_IndexReturned (Some ErrHostEmpty))))
  | P_IndexSend (Some b) =>
      Some (Go.Send (Some (blobChan fr)) (VBlob (Some b))
                    (GPop fr P_IndexWait))
  | P_IndexWait =>
      Some (Go.Recv
              [(Some (WALSuccessChan fr),
                fun v => match v with
                         | Some (VBool true) => GPop fr P_IndexRemove
                         | _ => GPop fr (P_IndexReturned
                                           (Some ErrWALNotWritten))
                         end)]
              None)
  | P_IndexRemove =>
      Some (Go.Tau (on_mgr (fun im =>
                              set_hostIndex
                                (index_remove_head (pf_host fr)
                                                   (hostIndex im)) im) m)
                   (GPop fr (P_IndexReturned None)))
  | _ => None
  end.

Definition pop_prog (fr : pop_frame) (pc : pop_pc) (m : memory) : instr :=
  match index_pop fr pc m with
  | Some i => i
  | None =>
      match pc with
      | P_IndexReturned (Some err) =>
          Go.Tau m (GPop fr (P_Return (0, "", 0, 0, Some err)))
      | P_IndexReturned None =>
          Go.Recv
            [(Some (errChan fr),
              fun v => match v with
                       | Some (VErr (Some err)) =>
                           GPop fr (P_Return (0, "", 0, 0, Some err))
                       | _ => GPop fr P_Commit
                       end)]
            None
      | P_Commit =>
          let r := frame_of (blobChan fr) (frames m) in
          let bump im := set_ops (i64 (opsSinceDump im + 1))
                                 (u64 (totalOps im + 1)) im in
          if pf_commit fr then
            match WALCommit (mgr m) with
            | Some (commit, im') =>
                Go.Tau (with_mgr (bump im') m)
                       (GPop fr (P_Return (commit, id r, position r, size r,
                                           None)))
            | None => Go.Crash
            end
          else
            Go.Tau (on_mgr bump m)
                   (GPop fr (P_Return (0, id r, position r, size r, None)))
      | P_Return r =>
          Go.CloseCh (Some (errChan fr)) (GPop fr (P_CloseWALSuccess r))
      | P_CloseWALSuccess r =>
          Go.CloseCh (Some (WALSuccessChan fr)) (GPop fr (P_CloseBlob r))
      | P_CloseBlob r =>
          Go.CloseCh (Some (blobChan fr)) (GPop fr (P_Unlock r))
      | P_Unlock r =>
          Go.Tau (on_mgr (set_locked false) m) (GPop fr (P_Done r))
      | _ => Go.Halt
      end
  end.

(** The goroutine started by [go func() { ... }()] in [pop] and
    [popCommitted]. *)
Definition helper_prog (fr : pop_frame) (pc : helper_pc) (m : memory)
  : instr :=
  match pc with
  | H_Recv =>
      Go.Recv [(Some (blobChan fr),
                fun v => match v with
                         | Some (VBlob (Some b)) => GPopHelper fr (H_Write b)
                         | _ => GPopHelper fr H_Done
                         end)]
              None
  | H_Write b =>
      match unsafeWriteToWAL OpPop (pf_host fr) (id b) (position b) (size b)
                             (mgr m) with
      | (Some e, im') =>
          Go.Tau (with_mgr im' m)
                 (GPopHelper fr (H_SendErr b (Wrapped wal_failed e)))
      | (None, im') => Go.Tau (with_mgr im' m) (GPopHelper fr (H_Assign b))
      end
  | H_SendErr b e =>
      Go.Send (Some (errChan fr)) (VErr (Some e))
              (GPopHelper fr (H_SendFalse b))
  | H_SendFalse b =>
      Go.Send (Some (WALSuccessChan fr)) (VBool false)
              (GPopHelper fr (H_Assign b))
  | H_Assign b =>
      Go.Tau (set_frame (blobChan fr) b m) (GPopHelper fr H_SendTrue)
  | H_SendTrue =>
      Go.Send (Some (WALSuccessChan fr)) (VBool true)
              (GPopHelper fr H_SendNil)
  | H_SendNil =>
      Go.Send (Some (errChan fr)) (VErr None) (GPopHelper fr H_Done)
  | H_Done => Go.Halt
  end.

(** *** Add, WALCommit and AwaitWALCommitted as goroutines *)

Definition add_prog (host bid : string) (pos sz : Z) (pc : add_pc)
    (m : memory) : instr :=
  match pc with
  | A_Lock =>
      if locked (mgr m) then Go.Wait
      else Go.Tau (on_mgr (set_locked true) m) (GAdd host bid pos sz A_Body)
  | A_Body =>
      match Add host bid pos sz (mgr m) with
      | Some (r, im') => Go.Tau (with_mgr im' m)
                                (GAdd host bid pos sz (A_Unlock r))
      | None => Go.Crash
      end
  | A_Unlock r =>
      Go.Tau (on_mgr (set_locked false) m) (GAdd host bid pos sz (A_Done r))
  | A_Done _ => Go.Halt
  end.

(** A client that calls [WALCommit] [n] times in a row. *)
Definition walcommit_prog (n : nat) (m : memory) : instr :=
  match n with
  | O => Go.Halt
  | S k =>
      match WALCommit (mgr m) with
      | Some (_, im') => Go.Tau (with_mgr im' m) (GWALCommit k)
      | None => Go.Crash
      end
  end.

Definition warn_commit0 : string := "AwaitWALCommited called with commit 0".
Definition warn_no_syncer : string :=
  "AwaitWALCommited called without Syncer running, beaware of hanging".

Definition await_prog (commit : Z) (pc : await_pc) (m : memory) : instr :=
  match pc with
  | W_Start =>
      if commit =? 0 then Go.Tau (log warn_commit0 m) (GAwait commit W_Done)
      else if walSyncerRunning (mgr m)
           then Go.Tau m (GAwait commit W_Check)
           else Go.Tau (log warn_no_syncer m) (GAwait commit W_Check)
  | W_Check =>
      match IsWALCommited commit (mgr m) with
      | Some true => Go.Tau m (GAwait commit W_Done)
      | Some false => Go.Tau m (GAwait commit W_Inc)
      | None => Go.Crash
      end
  | W_Inc =>
      match walNotifyListeners (mgr m) with
      | Some n =>
          Go.Tau (on_mgr (set_walNotifyListeners (Some (i64 (n + 1)))) m)
                 (GAwait commit W_Recv)
      | None => Go.Crash
      end
  | W_Recv =>
      Go.Recv [(walCommitedNotify (mgr m),
                fun v => match v with
                         | Some (VU64 z) => GAwait commit (W_Dec z)
                         | _ => GAwait commit (W_Dec 0)
                         end)]
              None
  | W_Dec idFromChan =>
      match walNotifyListeners (mgr m) with
      | Some n =>
          Go.Tau (on_mgr (set_walNotifyListeners (Some (i64 (n - 1)))) m)
                 (GAwait commit (if idFromChan >=? commit then W_Done
                                 else W_Inc))
      | None => Go.Crash
      end
  | W_Done => Go.Halt
  end.

(** *** Close and the goroutines it stops *)

Definition closing : string := "Closing index manager".
Definition closed_msg : string := "Index manager closed".
Definition dump_failed : string := "failed to perform final dump".
Definition wal_close_failed : string := "failed to close WAL file".
Definition index_close_failed : string := "failed to close index file".
Definition periodic_failed : string := "Periodic dump failed".

Definition close_prog (pc : close_pc) (m : memory) : instr :=
  match pc with
  | C_Start =>
      Go.Tau (on_mgr (set_dumpTicker false) (log closing m))
             (GClose C_SendStop)
  | C_SendStop =>
      Go.Send (stopChan (mgr m)) VUnit (GClose C_SendWalStop)
  | C_SendWalStop =>
      Go.Send (walStopChan (mgr m)) VUnit (GClose C_WaitWalStop)
  | C_WaitWalStop =>
      Go.Recv [(walStopChan (mgr m), fun _ => GClose C_Dump)] None
  | C_Dump =>
      if locked (mgr m) then Go.Wait
      else match performDump (mgr m) with
           | (Some e, im') =>
               Go.Tau (with_mgr im' m)
                      (GClose (C_Return (Some (Wrapped dump_failed e))))
           | (None, im') => Go.Tau (with_mgr im' m) (GClose C_CloseWal)
           end
  | C_CloseWal =>
      match file_close (walFile (mgr m)) with
      | (Some e, f) =>
          Go.Tau (on_mgr (set_walFile f) m)
                 (GClose (C_Return (Some (Wrapped wal_close_failed e))))
      | (None, f) => Go.Tau (on_mgr (set_walFile f) m) (GClose C_CloseIndex)
      end
  | C_CloseIndex =>
      match file_close (indexFile (mgr m)) with
      | (Some e, f) =>
          Go.Tau (on_mgr (set_indexFile f) m)
                 (GClose (C_Return (Some (Wrapped index_close_failed e))))
      | (None, f) =>
          Go.Tau (on_mgr (set_indexFile f) m) (GClose C_CheckSyncer)
      end
  | C_CheckSyncer =>
      if walSyncerRunning (mgr m)
      then Go.Tau m (GClose (C_Return (Some ErrSyncerRunning)))
      else Go.Tau m (GClose (C_Return None))
  | C_Return err => Go.Tau (log closed_msg m) (GClose (C_Done err))
  | C_Done _ => Go.Halt
  end.

(** The goroutine [NewIndexManager] starts to log the errors of the
    periodic dump and to pass the stop signal on to it. *)
Definition forward_prog (errCh stopCh : chan) (pc : forward_pc) (m : memory)
  : instr :=
  match pc with
  | F_Select =>
      Go.Recv
        [(stopChan (mgr m),
          fun v => GForward errCh stopCh (F_Forward (default VUnit v)));
         (Some errCh,
          fun v => match v with
                   | Some (VErr e) => GForward errCh stopCh (F_Log e)
                   | _ => GForward errCh stopCh (F_Log None)
                   end)]
        None
  | F_Forward stop => Go.Send (Some stopCh) stop (GForward errCh stopCh F_Done)
  | F_Log (Some _) =>
      Go.Tau (log periodic_failed m) (GForward errCh stopCh F_Select)
  | F_Log None => Go.Tau m (GForward errCh stopCh F_Select)
  | F_Done => Go.Halt
  end.

(** Modelled from the spec: [periodicDump] (absent from the sources) wakes
    at every tick of [dumpTicker] to take a snapshot, reports a failing
    snapshot on the error channel and goes on, and returns when it is told
    to stop. *)
Definition dump_prog (errCh stopCh tick : chan) (pc : dump_pc) (m : memory)
  : instr :=
  match pc with
  | D_Select =>
      Go.Recv [(Some stopCh, fun _ => GDump errCh stopCh tick D_Done);
               (Some tick, fun _ => GDump errCh stopCh tick D_Dump)]
              None
  | D_Dump =>
      if locked (mgr m) then Go.Wait
      else match performDump (mgr m) with
           | (Some e, im') =>
               Go.Tau (with_mgr im' m) (GDump errCh stopCh tick (D_SendErr e))
           | (None, im') =>
               Go.Tau (with_mgr im' m) (GDump errCh stopCh tick D_Select)
           end
  | D_SendErr e =>
      Go.Send (Some errCh) (VErr (Some e)) (GDump errCh stopCh tick D_Select)
  | D_Done => Go.Halt
  end.

(** [time.Ticker]: a tick is there to take whenever the ticker runs. *)
Definition ticker_prog (tick : chan) (m : memory) : instr :=
  if dumpTicker (mgr m) then Go.Send (Some tick) VUnit (GTicker tick)
  else Go.Wait.

(** *** walCommitsSyncer *)

Definition another_syncer : string := "another walCommitsSyncer is running".
Definition invalid_percent : string := "invalid WAL_IO_PERCENT".
Definition final_sync : string :=
  "walCommitsSyncer performing final sync before stopping".
Definition sync_slow : string := "WAL sync took too long".
Definition sync_failed_stopping : string :=
  "failed to sync WAL before stopping".
Definition sync_failed_retry : string := "failed to sync WAL, retrying".

Definition second : Z := 1000000000.
Definition millisecond : Z := 1000000.

Definition set_stopping (b : bool) (l : syncer_locals) : syncer_locals :=
  mkSL b (lastTrySyncDuration l) (flyingCommit l) (listeners l) (sent l).
Definition set_lastTrySyncDuration (d : Z) (l : syncer_locals)
  : syncer_locals :=
  mkSL (stopping l) d (flyingCommit l) (listeners l) (sent l).
Definition set_flyingCommit (f : Z) (l : syncer_locals) : syncer_locals :=
  mkSL (stopping l) (lastTrySyncDuration l) f (listeners l) (sent l).
Definition set_listeners (n i : Z) (l : syncer_locals) : syncer_locals :=
  mkSL (stopping l) (lastTrySyncDuration l) (flyingCommit l) n i.

Definition syncer_prog (pc : syncer_pc) (m : memory) : instr :=
  match pc with
  | S_Start =>
      (* CompareAndSwap(false, true) *)
      if walSyncerRunning (mgr m)
      then Go.Tau (log another_syncer m) (GSyncer S_Done)
      else Go.Tau (on_mgr (set_walSyncerRunning true) m) (GSyncer S_Validate)
  | S_Validate =>
      let l := mkSL false 0 0 0 0 in
      if (WalIoPercent (mgr m) <? 1) || (100 <? WalIoPercent (mgr m))
      then Go.Tau (on_mgr (set_WalIoPercent 10) (log invalid_percent m))
                  (GSyncer (S_Top l))
      else Go.Tau m (GSyncer (S_Top l))
  | S_Top l =>
      if stopping l then Go.Tau m (GSyncer S_Exit)
      else Go.Tau m (GSyncer (S_Select l))
  | S_Select l =>
      Go.Recv [(walStopChan (mgr m), fun _ => GSyncer (S_Stopping l))]
              (Some (GSyncer (S_Sleep l)))
  | S_Stopping l =>
      Go.Tau (log final_sync m) (GSyncer (S_Sleep (set_stopping true l)))
  | S_Sleep l =>
      Go.Tau (sleep (sleepTime (lastTrySyncDuration l) (WalIoPercent (mgr m))
                               (WalMinInterval (mgr m))) m)
             (GSyncer (S_Load l))
  | S_Load l =>
      match walCommit (mgr m) with
      | Some f => Go.Tau m (GSyncer (S_Lock (set_flyingCommit f l)))
      | None => Go.Crash
      end
  | S_Lock l =>
      if locked (mgr m) then Go.Wait
      else Go.Tau (on_mgr (set_locked true) m) (GSyncer (S_Sync l))
  | S_Sync l =>
      let '(err, d, im1) := unsafeWalSync (mgr m) in
      let m1 := with_mgr (set_locked false im1) m in
      let m2 := if 2 * second <? d then log sync_slow m1 else m1 in
      let l' := set_lastTrySyncDuration d l in
      match err with
      | Some _ =>
          if stopping l
          then Go.Tau (log sync_failed_stopping m2) (GSyncer S_Exit)
          else Go.Tau (log sync_failed_retry m2) (GSyncer (S_Top l'))
      | None => Go.Tau m2 (GSyncer (S_Store l'))
      end
  | S_Store l =>
      Go.Tau (on_mgr (set_walCommited (Some (flyingCommit l))) m)
             (GSyncer (S_Drain l))
  | S_Drain l =>
      (* len of an unbuffered channel is 0 *)
      Go.Tau m (GSyncer (S_Listeners l))
  | S_Listeners l =>
      match walNotifyListeners (mgr m) with
      | Some n => Go.Tau m (GSyncer (S_Notify (set_listeners n 0 l)))
      | None => Go.Crash
      end
  | S_Notify l =>
      if sent l <? listeners l
      then Go.Send (walCommitedNotify (mgr m)) (VU64 (flyingCommit l))
                   (GSyncer (S_Notify (set_listeners (listeners l)
                                                     (sent l + 1) l)))
      else Go.Tau m (GSyncer (S_Top l))
  | S_Exit => Go.CloseCh (walStopChan (mgr m)) (GSyncer S_ClearRunning)
  | S_ClearRunning =>
      Go.Tau (on_mgr (set_walSyncerRunning false) m) (GSyncer S_Done)
  | S_Done => Go.Halt
  end.

(** The program of every goroutine. *)
Definition prog (g : goroutine) (m : memory) : instr :=
  match g with
  | GPop_Lock host =>
      if locked (mgr m) then Go.Wait
      else Go.Tau (on_mgr (set_locked true) m)
                  (GPop_MakeBlobChan host (useCommit (mgr m)))
  | GPop_MakeBlobChan host uc =>
      Go.Make (fun b => GPop_MakeWALSuccessChan host uc b)
  | GPop_MakeWALSuccessChan host uc b =>
      Go.Make (fun w => GPop_MakeErrChan host uc b w)
  | GPop_MakeErrChan host uc b w =>
      Go.Make (fun e => GPop_Go (mkPF host uc b w e))
  | GPop_Go fr => Go.Spawn (GPopHelper fr H_Recv) (GPop fr P_IndexPeek)
  | GPop fr pc => pop_prog fr pc m
  | GPopHelper fr pc => helper_prog fr pc m
  | GAdd host bid pos sz pc => add_prog host bid pos sz pc m
  | GWALCommit n => walcommit_prog n m
  | GAwait commit pc => await_prog commit pc m
  | GClose pc => close_prog pc m
  | GForward e s pc => forward_prog e s pc m
  | GDump e s t pc => dump_prog e s t pc m
  | GTicker t => ticker_prog t m
  | GSyncer pc => syncer_prog pc m
  end.

Abbreviation config := (Go.config memory goroutine).

(** ** NewIndexManager *)

(** What the file system answers to [NewIndexManager]: the outcome of
    opening (and creating, if absent) the WAL and the snapshot file, and
    whether the size query on the WAL fails. *)
Record FS := mkFS {
  open_wal : error + File;
  open_index : error + File;
  stat_fails : bool
}.

Definition open_wal_failed : string := "failed to open WAL file".
Definition open_index_failed : string := "failed to open index file".
Definition check_empty_failed : string := "failed to check if WAL is empty".
Definition recover_failed : string := "failed to recover from crash".
Definition load_failed : string := "failed to load index".

(** [NewIndexManager] gives an error or the manager together with the
    goroutines it has started.  Channels are numbered in the order the
    function makes them: the ticker's, then under [useCommit]
    [walCommitedNotify], [walStopChan] and [stopChan], then
    [periodicDumpStopChan] and [periodicDumpErrChan]. *)
Definition new_manager (walFile indexFile : File) (useCommit : bool)
  : IndexManager :=
  mkIM false ∅ indexFile true 0 0 walFile useCommit
       (if useCommit then Some 0 else None)
       (if useCommit then Some 0 else None)
       (if useCommit then Some 0 else None)
       (if useCommit then Some 1%nat else None)
       false
       (if useCommit then Some 2%nat else None)
       (if useCommit then 10 else 0)
       (if useCommit then 10 * millisecond else 0)
       (if useCommit then Some 3%nat else None).

Definition NewIndexManager (fs : FS) (useCommit : bool) : error + config :=
  match open_wal fs with
  | inl e => inl (Wrapped open_wal_failed e)
  | inr walFile =>
      match open_index fs with
      | inl e => inl (Wrapped open_index_failed e)
      | inr indexFile =>
          let tick := 0%nat in
          let n := if useCommit then 4%nat else 1%nat in
          let im := new_manager walFile indexFile useCommit in
          match unsafeIsWALEmpty (stat_fails fs) im with
          | (_, Some e) => inl (Wrapped check_empty_failed e)
          | (empty, None) =>
              let '(err, im', msg) :=
                if negb empty
                then (RecoverFromCrash im, recover_failed)
                else (loadIndex im, load_failed) in
              match err with
              | Some e => inl (Wrapped msg e)
              | None =>
                  let periodicDumpStopChan := n in
                  let periodicDumpErrChan := S n in
                  inr (Go.mkConfig (mkMem im' [] [] []) (S (S n)) []
                         ([GTicker tick;
                           GForward periodicDumpErrChan periodicDumpStopChan
                                    F_Select;
                           GDump periodicDumpErrChan periodicDumpStopChan
                                 tick D_Select]
                          ++ (if useCommit then [GSyncer S_Start] else []))
                         false)
              end
          end
      end
  end.

(** The configuration in which client goroutines [gs] call into a
    manager that [NewIndexManager] returned. *)
Definition with_clients (gs : list goroutine) (c : config) : config :=
  Go.mkConfig (Go.shared c) (Go.next_chan c) (Go.closed_chans c)
              (Go.threads c ++ gs) (Go.crashed c).

(** A Pop call on its own: one client goroutine at the entry of [Pop],
    no channel made yet. *)
Definition pop_call (host : string) (m : memory) : config :=
  Go.mkConfig m 0%nat [] [GPop_Lock host] false.

(** ** Invariants of runs *)

Section Rule.
Context {mem tstate val : Type}.
Context (prog : tstate -> mem -> Go.instr mem tstate val).
Context (N : mem -> mem -> Prop) (G : mem -> Prop).
Context (L : nat -> mem -> tstate -> Prop).

(** What the next instruction of goroutine [i] must satisfy for [G] to be
    an invariant of the memory and [L] an invariant of every goroutine:
    an internal move allowed by [N] re-establishes [G], leaves the
    goroutine in [L] and does not disturb [L] for the others; every other
    move leaves the goroutine, and a goroutine it starts, in [L]. *)
Definition instr_ok (i : nat) (t : tstate) (m : mem) : Prop :=
  match prog t m with
  | Go.Tau m' t' =>
      N m m' ->
      G m' /\ L i m' t' /\ forall j tj, j <> i -> L j m tj -> L j m' tj
  | Go.Make k => forall n, L i m (k n)
  | Go.Spawn g t' => L i m t' /\ forall j, L j m g
  | Go.Send (Some _) _ t' => L i m t'
  | Go.Recv alts d =>
      (forall a v, In a alts -> L i m (snd a v))
      /\ (forall t', d = Some t' -> L i m t')
  | Go.CloseCh _ t' => L i m t'
  | _ => True
  end.

Definition inv (c : Go.config mem tstate) : Prop :=
  G (Go.shared c)
  /\ forall i t, Go.threads c !! i = Some t -> L i (Go.shared c) t.

End Rule.

(** The channels of a manager are set at construction and never again. *)
Definition channels (im : IndexManager)
  : option chan * option chan * option chan :=
  (stopChan im, walStopChan im, walCommitedNotify im).

(** What a function leaves alone of the channels and the commit counters. *)
Definition keeps_counters (im im' : IndexManager) : Prop :=
  channels im' = channels im
  /\ walCommit im' = walCommit im
  /\ walCommited im' = walCommited im.

(** The one change [WALCommit] makes. *)
Definition bumps_flying (im im' : IndexManager) : Prop :=
  channels im' = channels im
  /\ walCommited im' = walCommited im
  /\ exists f, walCommit im = Some f /\ walCommit im' = Some (u64 (f + 1)).

(** A goroutine at the entry of a method of the manager. *)
Definition is_call (g : goroutine) : Prop :=
  match g with
  | GPop_Lock _ | GAdd _ _ _ _ A_Lock | GWALCommit _ | GAwait _ W_Start
  | GClose C_Start => True
  | _ => False
  end.

(** A goroutine that is not a [Close] past its send on [stopChan]. *)
Definition close_blocked (g : goroutine) : Prop :=
  match g with
  | GClose pc => pc = C_Start \/ pc = C_SendStop
  | _ => True
  end.

(** The commit counters of a configuration. *)
Definition flying (c : config) : Z :=
  default 0 (walCommit (mgr (Go.shared c))).
Definition durable (c : config) : Z :=
  default 0 (walCommited (mgr (Go.shared c))).

(** The commit ids issued along a run, in issue order: [WALCommit] is the
    only writer of [walCommit], and the id it returns is the new value. *)
Fixpoint issued (c : config) (cs : list config) : list Z :=
  match cs with
  | [] => []
  | c' :: cs' =>
      (if bool_decide (walCommit (mgr (Go.shared c'))
                       = walCommit (mgr (Go.shared c)))
       then [] else [flying c'])
      ++ issued c' cs'
  end.

(** The invariant of the counters in grouped-commit mode. *)
Definition counters_ok (m : memory) : Prop :=
  exists f d, walCommit (mgr m) = Some f /\ walCommited (mgr m) = Some d
              /\ 0 <= d /\ d <= f /\ f < u64_mod.

(** The syncer is the fourth goroutine [NewIndexManager] starts; between
    its load of [flying] and its store into [durable], the value it holds
    lies between the two counters. *)
Definition syncer_ok (i : nat) (m : memory) (g : goroutine) : Prop :=
  match g with
  | GSyncer pc =>
      i = 3%nat
      /\ match pc with
         | S_Lock l | S_Sync l | S_Store l =>
             forall f d, walCommit (mgr m) = Some f ->
                         walCommited (mgr m) = Some d ->
                         d <= flyingCommit l <= f
         | _ => True
         end
  | _ => True
  end.

(** A move that increments [flying] does not wrap it. *)
Definition no_wrap (m m' : memory) : Prop :=
  forall f, walCommit (mgr m) = Some f ->
            walCommit (mgr m') = Some (u64 (f + 1)) -> f + 1 < u64_mod.

(** ** Managers and files used as concrete inputs *)

Definition empty_file : File := mkFile [] [] [] false.

(** A file whose next write fails. *)
Definition failing_file : File := mkFile [] [true] [] false.

(** A grouped-commit manager with one blob queued for host [h] and the
    given commit counters. *)
Definition grouped_manager (flying durable : Z) : IndexManager :=
  set_walCommited (Some durable)
    (set_walCommit (Some flying)
       (set_hostIndex {[ "h" := [mkBlob "b1" 0 10] ]}
          (new_manager empty_file empty_file true))).

(** A WAL left by a crash after two adds and a pop, over a snapshot that
    holds one blob of another host. *)
Definition crashed_wal : File :=
  mkFile [mkWALEntry OpAdd "h" "b1" 0 10; mkWALEntry OpAdd "h" "b2" 10 20;
          mkWALEntry OpPop "h" "b1" 0 10] [] [] false.

Definition crashed_snapshot : File :=
  mkFile [mkWALEntry OpAdd "g" "a" 0 1] [] [] false.

Definition crashed_fs : FS :=
  mkFS (inr crashed_wal) (inr crashed_snapshot) false.

(** ** Reading a run of AwaitWALCommitted *)

(** What a run of one goroutine shows of the listener count: for every
    move the value received, if any, and [walNotifyListeners] after it. *)
Definition listeners_seen (tr : list (option val * memory))
  : list (option val * option Z) :=
  map (fun x => (fst x, walNotifyListeners (mgr (snd x)))) tr.

(** One round of the wait loop with [n] listeners before it: the count is
    incremented, then the id [x] is received with the count still
    incremented, then the count is decremented. *)
Definition await_round (n x : Z) : list (option val * option Z) :=
  [(None, Some (i64 (n + 1))); (Some (VU64 x), Some (i64 (n + 1)));
   (None, Some n)].

(** The goroutines a manager starts, none of which has run yet. *)
Definition started (useCommit : bool) (c : config) : Prop :=
  exists errCh stopCh tick,
    Go.threads c
    = [GTicker tick; GForward errCh stopCh F_Select;
       GDump errCh stopCh tick D_Select]
      ++ (if useCommit then [GSyncer S_Start] else []).

(** A fresh store: both files open and empty. *)
Definition fresh_fs : FS := mkFS (inr empty_file) (inr empty_file) false.

(** What [NewIndexManager] returns on a fresh store, in each mode. *)
Definition grouped_boot : config :=
  Go.mkConfig (mkMem (new_manager empty_file empty_file true) [] [] [])
              6%nat []
              [GTicker 0%nat; GForward 5%nat 4%nat F_Select;
               GDump 5%nat 4%nat 0%nat D_Select; GSyncer S_Start]
              false.

Definition sync_boot : config :=
  Go.mkConfig (mkMem (new_manager empty_file empty_file false) [] [] [])
              3%nat []
              [GTicker 0%nat; GForward 2%nat 1%nat F_Select;
               GDump 2%nat 1%nat 0%nat D_Select]
              false.

(** The run in which the one client of a grouped-commit manager, the
    fifth goroutine, calls [WALCommit] [k] times and nobody else moves. *)
Definition commit_move (c : config) : config :=
  hd c (Go.thread_steps prog c 4).

Fixpoint commit_path (k : nat) (c : config) : list config :=
  match k with
  | O => []
  | S k' => commit_move c :: commit_path k' (commit_move c)
  end.

(** The [k] ids that follow [f]. *)
Fixpoint ids_from (f : Z) (k : nat) : list Z :=
  match k with
  | O => []
  | S k' => u64 (f + 1) :: ids_from (u64 (f + 1)) k'
  end.

(** * Properties *)

(** ** Machine integers *)

Lemma u64_small (z : Z) : 0 <= z < u64_mod -> u64 z = z.
Proof. intros H. unfold u64. apply Z.mod_small. exact H. Qed.

Lemma u64_succ (f : Z) : 0 <= f < u64_max -> u64 (f + 1) = f + 1.
Proof. intros H. apply u64_small. unfold u64_max, u64_mod in *. lia. Qed.

Lemma u64_wraps : u64 (u64_max + 1) = 0.
Proof. reflexivity. Qed.

Lemma u64_range (z : Z) : 0 <= u64 z < u64_mod.
Proof. unfold u64. apply Z.mod_pos_bound. reflexivity. Qed.

Lemma u64_succ_ne (f : Z) : 0 <= f < u64_mod -> u64 (f + 1) <> f.
Proof.
  intros Hf. destruct (Z.eq_dec f u64_max) as [->|Hne].
  - rewrite u64_wraps. unfold u64_max. lia.
  - rewrite u64_small by (unfold u64_max, u64_mod in *; lia). lia.
Qed.

Lemma i64_inc_dec (n : Z) :
  - 2 ^ 63 <= n < 2 ^ 63 -> i64 (i64 (n + 1) - 1) = n.
Proof.
  intros Hn. destruct (Z.eq_dec n (2 ^ 63 - 1)) as [->|Hne]; [reflexivity|].
  unfold i64. rewrite (Z.mod_small (n + 1 + 2 ^ 63)) by lia.
  replace (n + 1 + 2 ^ 63 - 2 ^ 63 - 1 + 2 ^ 63) with (n + 2 ^ 63) by lia.
  rewrite Z.mod_small by lia. lia.
Qed.

(** ** Runs of the scheduler *)

Section Solo.
Context {mem tstate val : Type}.
Context (prog : tstate -> mem -> Go.instr mem tstate val).

Lemma solo_tau (f : nat) (inbox : list val) (t t' : tstate) (m m' : mem) :
  prog t m = Go.Tau m' t' ->
  Go.solo prog (S f) inbox t m
  = (let '(tr, t'', rest) := Go.solo prog f inbox t' m' in
     ((None, m') :: tr, t'', rest)).
Proof. intros H. simpl. rewrite H. reflexivity. Qed.

Lemma solo_recv (f : nat) (v : val) (inbox : list val) (t : tstate) (m : mem)
    c k alts d :
  prog t m = Go.Recv ((c, k) :: alts) d ->
  Go.solo prog (S f) (v :: inbox) t m
  = (let '(tr, t'', rest) := Go.solo prog f inbox (k (Some v)) m in
     ((Some v, m) :: tr, t'', rest)).
Proof. intros H. simpl. rewrite H. reflexivity. Qed.

Lemma solo_blocked (f : nat) (t : tstate) (m : mem) alts d :
  prog t m = Go.Recv alts d -> Go.solo prog f [] t m = ([], t, []).
Proof.
  intros H. destruct f; simpl; [reflexivity|]. rewrite H.
  destruct alts as [|[c k] alts]; reflexivity.
Qed.

Lemma solo_halt (f : nat) (inbox : list val) (t : tstate) (m : mem) :
  prog t m = Go.Halt -> Go.solo prog f inbox t m = ([], t, inbox).
Proof. intros H. destruct f; simpl; [reflexivity|]. rewrite H. reflexivity. Qed.

End Solo.

Section SafeRun.
Context {mem tstate val : Type}.
Context (prog : tstate -> mem -> Go.instr mem tstate val).

(** A configuration with a single move inherits [safe_run] from the
    configuration it moves to. *)
Lemma sr_det (I P : Go.config mem tstate -> Prop)
    (c c' : Go.config mem tstate) :
  I c -> Go.steps prog c = [c'] -> Go.safe_run prog I P c' ->
  Go.safe_run prog I P c.
Proof.
  intros HI Hs Hc'. apply Go.sr_step; [exact HI| rewrite Hs; discriminate |].
  intros c'' Hin. rewrite Hs in Hin. apply list_elem_of_singleton in Hin.
  subst c''. exact Hc'.
Qed.

End SafeRun.

Section Schedules.
Context {mem tstate val : Type}.
Context (prog : tstate -> mem -> Go.instr mem tstate val).

Lemma pick_step (k : nat) (c : Go.config mem tstate) :
  (k < length (Go.steps prog c))%nat -> Go.step prog c (Go.pick prog k c).
Proof.
  intros Hk. unfold Go.step, Go.pick. apply list_elem_of_In, nth_In. exact Hk.
Qed.

Lemma follow_run (sched : list nat) :
  forall c, Go.in_range prog sched c = true ->
            Go.run prog c (Go.follow prog sched c).
Proof.
  induction sched as [|k sched IH]; intros c Hr; simpl in *; [exact I|].
  apply andb_prop in Hr. destruct Hr as [Hk Hr].
  split; [apply pick_step, Nat.ltb_lt, Hk|apply IH, Hr].
Qed.

End Schedules.

Section RuleFacts.
Context {mem tstate val : Type}.
Context (prog : tstate -> mem -> Go.instr mem tstate val).
Context (N : mem -> mem -> Prop) (G : mem -> Prop).
Context (L : nat -> mem -> tstate -> Prop).
Hypothesis ok : forall i t m, G m -> L i m t -> instr_ok prog N G L i t m.

Lemma inv_insert (l : list tstate) (m : mem) (i : nat) (t' : tstate) :
  (forall j tj, l !! j = Some tj -> L j m tj) ->
  L i m t' ->
  forall j tj, <[i := t']> l !! j = Some tj -> L j m tj.
Proof.
  intros Hl Ht j tj Hj. apply list_lookup_insert_Some in Hj.
  destruct Hj as [(-> & <- & _)|(_ & Hj)]; [exact Ht|apply Hl, Hj].
Qed.

Lemma step_inv (c c' : Go.config mem tstate) :
  inv G L c -> Go.step prog c c' -> N (Go.shared c) (Go.shared c') ->
  inv G L c'.
Proof.
  intros [HG HL] Hstep HN. unfold Go.step, Go.steps in Hstep.
  destruct (Go.crashed c); [apply elem_of_nil in Hstep; contradiction|].
  apply list_elem_of_In, in_flat_map in Hstep.
  destruct Hstep as (i & _ & Hin). unfold Go.thread_steps in Hin.
  destruct (Go.threads c !! i) as [t|] eqn:Hi; [|contradiction].
  pose proof (ok i t (Go.shared c) HG (HL i t Hi)) as Hok.
  unfold instr_ok in Hok.
  destruct (prog t (Go.shared c)) as [m' t'|k|g t'|[ch|] v t'|alts d|[ch|] t'| | |]
    eqn:Hp.
  - destruct Hin as [<-|[]]. simpl in *.
    destruct (Hok HN) as (HG' & Ht' & Hstab). split; [exact HG'|].
    intros j tj Hj. apply list_lookup_insert_Some in Hj.
    destruct Hj as [(-> & <- & _)|(Hne & Hj)]; [exact Ht'|].
    apply Hstab; [congruence|]. apply HL, Hj.
  - destruct Hin as [<-|[]]. simpl. split; [exact HG|].
    apply inv_insert; [exact HL|apply Hok].
  - destruct Hin as [<-|[]]. simpl. split; [exact HG|].
    destruct Hok as [Ht' Hg]. intros j tj Hj.
    apply lookup_app_Some in Hj. destruct Hj as [Hj|[_ Hj]].
    + revert j tj Hj. apply inv_insert; [exact HL|exact Ht'].
    + apply list_lookup_singleton_Some in Hj. destruct Hj as [_ <-]. apply Hg.
  - destruct (Go.is_closed c ch).
    { destruct Hin as [<-|[]]. split; [exact HG|exact HL]. }
    apply in_flat_map in Hin. destruct Hin as (j & _ & Hin).
    destruct (Nat.eqb i j); [contradiction|].
    apply in_map_iff in Hin. destruct Hin as (k & <- & Hk).
    unfold Go.receivers in Hk.
    destruct (Go.threads c !! j) as [tj|] eqn:Hj; [|contradiction].
    pose proof (ok j tj (Go.shared c) HG (HL j tj Hj)) as Hokj.
    unfold instr_ok in Hokj.
    destruct (prog tj (Go.shared c)) as [| | | |alts d| | | |]; try contradiction.
    apply in_map_iff in Hk. destruct Hk as (a & <- & Ha).
    apply filter_In in Ha. destruct Ha as [Ha _].
    simpl. split; [exact HG|].
    apply inv_insert; [|apply (proj1 Hokj); exact Ha].
    apply inv_insert; [exact HL|exact Hok].
  - contradiction.
  - apply in_app_or in Hin. destruct Hok as [Halts Hd].
    destruct Hin as [Hin|Hin].
    + apply in_flat_map in Hin. destruct Hin as (a & Ha & Hin).
      destruct (fst a) as [ch|]; [|contradiction].
      destruct (Go.is_closed c ch); [|contradiction].
      destruct Hin as [<-|[]]. simpl. split; [exact HG|].
      apply inv_insert; [exact HL|apply Halts; exact Ha].
    + destruct d as [t'|]; [|contradiction].
      destruct (existsb _ alts); [contradiction|].
      destruct Hin as [<-|[]]. simpl. split; [exact HG|].
      apply inv_insert; [exact HL|apply Hd; reflexivity].
  - destruct (Go.is_closed c ch); destruct Hin as [<-|[]]; simpl;
      (split; [exact HG|]); [exact HL|].
    apply inv_insert; [exact HL|exact Hok].
  - destruct Hin as [<-|[]]. split; [exact HG|exact HL].
  - destruct Hin as [<-|[]]. split; [exact HG|exact HL].
  - contradiction.
  - contradiction.
Qed.

Lemma step_shared (c c' : Go.config mem tstate) :
  Go.step prog c c' ->
  Go.shared c' = Go.shared c
  \/ exists i t t', Go.threads c !! i = Some t
                    /\ prog t (Go.shared c) = Go.Tau (Go.shared c') t'.
Proof.
  intros Hstep. unfold Go.step, Go.steps in Hstep.
  destruct (Go.crashed c); [apply elem_of_nil in Hstep; contradiction|].
  apply list_elem_of_In, in_flat_map in Hstep.
  destruct Hstep as (i & _ & Hin). unfold Go.thread_steps in Hin.
  destruct (Go.threads c !! i) as [t|] eqn:Hi; [|contradiction].
  destruct (prog t (Go.shared c)) as [m' t'|k|g t'|[ch|] v t'|alts d|[ch|] t'| | |]
    eqn:Hp.
  - destruct Hin as [<-|[]]. right. exists i, t, t'. split; [exact Hi|exact Hp].
  - destruct Hin as [<-|[]]. left. reflexivity.
  - destruct Hin as [<-|[]]. left. reflexivity.
  - left. destruct (Go.is_closed c ch).
    { destruct Hin as [<-|[]]. reflexivity. }
    apply in_flat_map in Hin. destruct Hin as (j & _ & Hin).
    destruct (Nat.eqb i j); [contradiction|].
    apply in_map_iff in Hin. destruct Hin as (k & <- & Hk). reflexivity.
  - contradiction.
  - left. apply in_app_or in Hin. destruct Hin as [Hin|Hin].
    + apply in_flat_map in Hin. destruct Hin as (a & Ha & Hin).
      destruct (fst a) as [ch|]; [|contradiction].
      destruct (Go.is_closed c ch); [|contradiction].
      destruct Hin as [<-|[]]. reflexivity.
    + destruct d as [t'|]; [|contradiction].
      destruct (existsb _ alts); [contradiction|].
      destruct Hin as [<-|[]]. reflexivity.
  - left. destruct (Go.is_closed c ch); destruct Hin as [<-|[]]; reflexivity.
  - left. destruct Hin as [<-|[]]. reflexivity.
  - left. destruct Hin as [<-|[]]. reflexivity.
  - contradiction.
  - contradiction.
Qed.

End RuleFacts.

(** ** What the functions of the manager leave alone *)

(** The setters leave the other fields alone; the lemmas below are what
    the proofs use of [unsafeWriteToWAL] and [WALCommit]. *)
Lemma unsafeWriteToWAL_frame op host bid pos sz im err im' :
  unsafeWriteToWAL op host bid pos sz im = (err, im') ->
  hostIndex im' = hostIndex im /\ walCommit im' = walCommit im
  /\ walCommited im' = walCommited im /\ opsSinceDump im' = opsSinceDump im
  /\ totalOps im' = totalOps im /\ locked im' = locked im.
Proof.
  unfold unsafeWriteToWAL.
  destruct (file_append _ _) as [e f]. intros [= <- <-]. simpl. tauto.
Qed.

Lemma set_locked_false_id (im : IndexManager) :
  locked im = false -> set_locked false (set_locked true im) = im.
Proof. destruct im; simpl; intros ->; reflexivity. Qed.

Lemma unsafeWriteToWAL_keeps op h b p s im :
  keeps_counters im (snd (unsafeWriteToWAL op h b p s im)).
Proof.
  unfold unsafeWriteToWAL. destruct (file_append _ _). repeat split.
Qed.

Lemma unsafeWalSync_keeps im : keeps_counters im (snd (unsafeWalSync im)).
Proof.
  unfold unsafeWalSync. destruct (file_sync _) as [[? ?] ?]. repeat split.
Qed.

Lemma performDump_keeps im : keeps_counters im (snd (performDump im)).
Proof.
  unfold performDump. destruct (writeFaults _) as [|[|] ?]; repeat split.
Qed.

Lemma WALCommit_bumps im c im' :
  WALCommit im = Some (c, im') ->
  bumps_flying im im' /\ walCommit im' = Some c.
Proof.
  unfold WALCommit. destruct (walCommit im) as [f|] eqn:Hf; simpl; [|discriminate].
  intros [= <- <-]. repeat split. exists f. split; [exact Hf|reflexivity].
Qed.

Lemma bumps_after_keeps (a b c : IndexManager) :
  keeps_counters a b -> bumps_flying b c -> bumps_flying a c.
Proof.
  intros (Hc & Hf & Hd) (Hc' & Hd' & f & Hf1 & Hf2).
  repeat split; try congruence. exists f. split; congruence.
Qed.

Lemma Add_frame h b p s im r im' :
  Add h b p s im = Some (r, im') ->
  keeps_counters im im' \/ bumps_flying im im'.
Proof.
  unfold Add, addCommitted, add.
  pose proof (unsafeWriteToWAL_keeps OpAdd h b p s im) as Hw.
  destruct (unsafeWriteToWAL OpAdd h b p s im) as [[e|] im1]; simpl in Hw.
  - destruct (useCommit im); intros [= <- <-]; left; exact Hw.
  - destruct (useCommit im).
    + destruct (WALCommit im1) as [[c im2]|] eqn:Hc; simpl; [|discriminate].
      apply WALCommit_bumps in Hc. destruct Hc as [Hc _].
      pose proof (bumps_after_keeps _ _ _ Hw Hc) as Hb.
      destruct (index_add _ _ _ _ _); intros [= <- <-]; right; exact Hb.
    + destruct (index_add _ _ _ _ _); intros [= <- <-]; left; exact Hw.
Qed.

(** What an internal move of any goroutine does to the channels and the
    commit counters: nothing, or the increment of [flying] by a goroutine
    other than the syncer, or the syncer's store into [durable]. *)
Lemma prog_tau_frame (t t' : goroutine) (m m' : memory) :
  prog t m = Go.Tau m' t' ->
  keeps_counters (mgr m) (mgr m')
  \/ (bumps_flying (mgr m) (mgr m') /\ forall pc, t <> GSyncer pc)
  \/ (exists l, t = GSyncer (S_Store l)
                /\ channels (mgr m') = channels (mgr m)
                /\ walCommit (mgr m') = walCommit (mgr m)
                /\ walCommited (mgr m') = Some (flyingCommit l)).
Proof.
  destruct t as [h|h uc|h uc b|h uc b w|fr|fr pc|fr pc|h b p s pc|n|cm pc|pc
                |e s pc|e s tk pc|tk|pc]; simpl;
    try discriminate.
  - destruct (locked (mgr m)); intros [= <- <-]; left; repeat split.
  - destruct pc as [|[?|]| | |[?|]| |r|r|r|r|r]; cbn; try discriminate;
      try (intros [= <- <-]; left; repeat split).
    destruct (pf_commit fr).
    + destruct (WALCommit (mgr m)) as [[c im']|] eqn:Hc; [|discriminate].
      intros [= <- <-]. right. left. split; [|discriminate].
      apply WALCommit_bumps in Hc. destruct Hc as [(Hch & Hd & f & Hf & Hf') _].
      repeat split; try assumption. exists f. split; assumption.
    + intros [= <- <-]; left; repeat split.
  - destruct pc; simpl; try discriminate;
      try (intros [= <- <-]; left; repeat split).
    pose proof (unsafeWriteToWAL_keeps OpPop (pf_host fr) (id b) (position b)
                  (size b) (mgr m)) as Hw.
    destruct (unsafeWriteToWAL _ _ _ _ _ _) as [[?|] im']; intros [= <- <-];
      left; exact Hw.
  - destruct pc; simpl; try discriminate.
    + destruct (locked (mgr m)); intros [= <- <-]; left; repeat split.
    + destruct (Add h b p s (mgr m)) as [[r im']|] eqn:Ha; [|discriminate].
      intros [= <- <-]. apply Add_frame in Ha.
      destruct Ha as [Ha|Ha]; [left; exact Ha|].
      right. left. split; [exact Ha|discriminate].
    + intros [= <- <-]; left; repeat split.
  - destruct n; simpl; [discriminate|].
    destruct (WALCommit (mgr m)) as [[c im']|] eqn:Hc; [|discriminate].
    intros [= <- <-]. right. left. split; [|discriminate].
    apply WALCommit_bumps in Hc. exact (proj1 Hc).
  - destruct pc; simpl; try discriminate.
    + destruct (cm =? 0); [intros [= <- <-]; left; repeat split|].
      destruct (walSyncerRunning _); intros [= <- <-]; left; repeat split.
    + destruct (IsWALCommited _ _) as [[|]|]; try discriminate;
        intros [= <- <-]; left; repeat split.
    + destruct (walNotifyListeners _); try discriminate;
        intros [= <- <-]; left; repeat split.
    + destruct (walNotifyListeners _); try discriminate;
        intros [= <- <-]; left; repeat split.
  - destruct pc; simpl; try discriminate;
      try (intros [= <- <-]; left; repeat split).
    + destruct (locked (mgr m)); [discriminate|].
      pose proof (performDump_keeps (mgr m)) as Hd.
      destruct (performDump (mgr m)) as [[?|] im']; intros [= <- <-];
        left; exact Hd.
    + destruct (file_close _) as [[?|] ?]; intros [= <- <-]; left; repeat split.
    + destruct (file_close _) as [[?|] ?]; intros [= <- <-]; left; repeat split.
    + destruct (walSyncerRunning _); intros [= <- <-]; left; repeat split.
  - destruct pc as [| |[?|]|]; simpl; try discriminate;
      intros [= <- <-]; left; repeat split.
  - destruct pc; simpl; try discriminate.
    destruct (locked (mgr m)); [discriminate|].
    pose proof (performDump_keeps (mgr m)) as Hd.
    destruct (performDump (mgr m)) as [[?|] im']; intros [= <- <-];
      left; exact Hd.
  - unfold ticker_prog. destruct (dumpTicker _); discriminate.
  - destruct pc; simpl; try discriminate;
      try (intros [= <- <-]; left; repeat split; fail).
    + destruct (walSyncerRunning _); intros [= <- <-]; left; repeat split.
    + destruct (_ || _); intros [= <- <-]; left; repeat split.
    + destruct (stopping l); intros [= <- <-]; left; repeat split.
    + destruct (walCommit _); [|discriminate].
      intros [= <- <-]; left; repeat split.
    + destruct (locked _); [discriminate|].
      intros [= <- <-]; left; repeat split.
    + pose proof (unsafeWalSync_keeps (mgr m)) as Hs.
      destruct (unsafeWalSync (mgr m)) as [[err d] im1].
      destruct err; [destruct (stopping l)|]; destruct (2 * second <? d);
        intros [= <- <-]; left; exact Hs.
    + intros [= <- <-]. right. right. exists l. repeat split.
    + destruct (walNotifyListeners _); [|discriminate].
      intros [= <- <-]; left; repeat split.
    + destruct (sent l <? listeners l); [discriminate|].
      intros [= <- <-]; left; repeat split.
Qed.

Lemma prog_tau_channels (t t' : goroutine) (m m' : memory) :
  prog t m = Go.Tau m' t' -> channels (mgr m') = channels (mgr m).
Proof.
  intros Hp. apply prog_tau_frame in Hp.
  destruct Hp as [(H & _)|[((H & _) & _)|(l & _ & H & _)]]; exact H.
Qed.

Ltac destruct_inner x :=
  first [ match x with
          | context [match ?y with _ => _ end] => destruct_inner y
          end
        | destruct x eqn:? ].

Ltac crunch_succ :=
  repeat first
    [ progress (simpl in * )
    | progress intros
    | progress subst
    | match goal with
      | |- True => exact I
      | |- _ /\ _ => split
      | H : False |- _ => destruct H
      | H : _ \/ _ |- _ => destruct H
      | H : _ = _ |- _ => discriminate H
      | H : Some _ = Some _ |- _ => injection H as H
      | H : ?x = _ |- context [match ?x with _ => _ end] => rewrite H
      | |- context [match ?x with _ => _ end] => destruct_inner x
      end ].

(** ** Add *)

(** C10, as amended.  In grouped-commit mode an Add whose WAL append
    succeeds and whose Index apply fails returns the error together with
    the commit id [flying + 1] modulo 2^64, which the call has consumed:
    [flying] holds that id afterwards although the Index and the operation
    counters are as before.  The id is not zero unless the counter wrapped. *)
Theorem addCommitted_index_failure_consumes_commit
    (host bid : string) (pos sz : Z) (im : IndexManager) (flying : Z)
    (e : error) :
  walCommit im = Some flying ->
  fst (unsafeWriteToWAL OpAdd host bid pos sz im) = None ->
  index_add host bid pos sz (hostIndex im) = inl e ->
  exists im',
    addCommitted host bid pos sz im
    = Some ((u64 (flying + 1), Some (Wrapped index_failed e)), im')
    /\ walCommit im' = Some (u64 (flying + 1))
    /\ hostIndex im' = hostIndex im
    /\ opsSinceDump im' = opsSinceDump im
    /\ totalOps im' = totalOps im
    /\ (0 <= flying < u64_max -> u64 (flying + 1) = flying + 1
                                 /\ u64 (flying + 1) <> 0).
Proof.
  intros Hf Hw Hi. unfold addCommitted.
  destruct (unsafeWriteToWAL OpAdd host bid pos sz im) as [werr im1] eqn:Hwal.
  simpl in Hw. subst werr.
  destruct (unsafeWriteToWAL_frame _ _ _ _ _ _ _ _ Hwal)
    as (Hix & Hc & _ & Hops & Htot & _).
  unfold WALCommit. rewrite Hc, Hf. simpl. rewrite Hix, Hi.
  eexists. split; [reflexivity|]. simpl.
  repeat split; try assumption.
  - apply u64_succ; assumption.
  - rewrite u64_succ by assumption. lia.
Qed.

Lemma addCommitted_index_failure_consumes_commit_witness :
  exists im',
    addCommitted "h" "b1" 100 5 (grouped_manager 7 5)
    = Some ((u64 (7 + 1), Some (Wrapped index_failed ErrDuplicate)), im')
    /\ walCommit im' = Some (u64 (7 + 1))
    /\ hostIndex im' = hostIndex (grouped_manager 7 5)
    /\ opsSinceDump im' = opsSinceDump (grouped_manager 7 5)
    /\ totalOps im' = totalOps (grouped_manager 7 5)
    /\ (0 <= 7 < u64_max -> u64 (7 + 1) = 7 + 1 /\ u64 (7 + 1) <> 0).
Proof.
  apply (addCommitted_index_failure_consumes_commit
           "h" "b1" 100 5 (grouped_manager 7 5) 7 ErrDuplicate);
    reflexivity.
Defined.

(** C10 as stated fails when the counter wraps: with [flying] at 2^64 - 1
    the WAL append succeeds, the Index rejects the duplicate, and the
    commit id returned with the error is zero. *)
Lemma addCommitted_commit_zero_at_wrap :
  walCommit (grouped_manager u64_max 5) = Some u64_max
  /\ fst (unsafeWriteToWAL OpAdd "h" "b1" 100 5 (grouped_manager u64_max 5))
     = None
  /\ index_add "h" "b1" 100 5 (hostIndex (grouped_manager u64_max 5))
     = inl ErrDuplicate
  /\ fst <$> addCommitted "h" "b1" 100 5 (grouped_manager u64_max 5)
     = Some (0, Some (Wrapped index_failed ErrDuplicate)).
Proof. repeat split; vm_compute; reflexivity. Qed.

(** An Add that returns an error leaves the Index, the operation counters
    and [durable] as they were; [flying] is as it was too, unless the
    error is the Index's rejection of a duplicate in grouped-commit mode,
    where the commit id returned has been consumed. *)
Theorem Add_error_keeps_index
    (host bid : string) (pos sz : Z) (im im' : IndexManager) (commit : Z)
    (e : error) :
  Add host bid pos sz im = Some ((commit, Some e), im') ->
  hostIndex im' = hostIndex im
  /\ opsSinceDump im' = opsSinceDump im
  /\ totalOps im' = totalOps im
  /\ walCommited im' = walCommited im
  /\ (walCommit im' = walCommit im
      \/ exists f, useCommit im = true
                   /\ e = Wrapped index_failed ErrDuplicate
                   /\ walCommit im = Some f
                   /\ walCommit im' = Some (u64 (f + 1))
                   /\ commit = u64 (f + 1)).
Proof.
  unfold Add, addCommitted, add.
  destruct (unsafeWriteToWAL OpAdd host bid pos sz im) as [werr im1] eqn:Hw.
  destruct (unsafeWriteToWAL_frame _ _ _ _ _ _ _ _ Hw)
    as (Hix & Hc & Hd & Hops & Htot & _).
  destruct (useCommit im) eqn:Huc.
  - destruct werr as [we|].
    + intros [= <- <- <-]. repeat split; try assumption. left. assumption.
    + unfold WALCommit. destruct (walCommit im1) as [f|] eqn:Hf; simpl;
        [|discriminate].
      unfold index_add.
      destruct (existsb _ _).
      * intros [= <- <- <-]. simpl. repeat split; try assumption.
        right. exists f. repeat split; congruence.
      * discriminate.
  - destruct werr as [we|].
    + intros [= <- <- <-]. repeat split; try assumption. left. assumption.
    + unfold index_add. destruct (existsb _ _).
      * intros [= <- <- <-]. repeat split; try assumption. left. assumption.
      * discriminate.
Qed.

Lemma Add_error_keeps_index_witness :
  hostIndex (set_walFile (mkFile [] [] [] false) (grouped_manager 7 5))
  = hostIndex (set_walFile failing_file (grouped_manager 7 5))
  /\ opsSinceDump (set_walFile (mkFile [] [] [] false) (grouped_manager 7 5))
     = opsSinceDump (set_walFile failing_file (grouped_manager 7 5))
  /\ totalOps (set_walFile (mkFile [] [] [] false) (grouped_manager 7 5))
     = totalOps (set_walFile failing_file (grouped_manager 7 5))
  /\ walCommited (set_walFile (mkFile [] [] [] false) (grouped_manager 7 5))
     = walCommited (set_walFile failing_file (grouped_manager 7 5))
  /\ (walCommit (set_walFile (mkFile [] [] [] false) (grouped_manager 7 5))
      = walCommit (set_walFile failing_file (grouped_manager 7 5))
      \/ exists f,
          useCommit (set_walFile failing_file (grouped_manager 7 5)) = true
          /\ Wrapped wal_failed ErrIO = Wrapped index_failed ErrDuplicate
          /\ walCommit (set_walFile failing_file (grouped_manager 7 5))
             = Some f
          /\ walCommit (set_walFile (mkFile [] [] [] false)
                                    (grouped_manager 7 5))
             = Some (u64 (f + 1))
          /\ 0 = u64 (f + 1)).
Proof.
  apply (Add_error_keeps_index "h" "b9" 0 1
           (set_walFile failing_file (grouped_manager 7 5))
           (set_walFile (mkFile [] [] [] false) (grouped_manager 7 5))
           0 (Wrapped wal_failed ErrIO)).
  reflexivity.
Defined.

(** ** Pop *)

Ltac frame_ok := cbn; split; reflexivity.
Ltac frame_step := eapply sr_det; [ frame_ok | cbn; reflexivity | ].

Ltac any_step := eapply sr_det; [ exact I | cbn; reflexivity | ].

(** Pop on a host with a blob queued and a WAL that takes the record, in
    either mode: on every schedule the call returns the oldest blob of the
    host with no error, the blob is gone from the head of the queue, the
    POP record is the last record of the WAL, the lock is free again, and
    in grouped-commit mode the commit id returned is the new value of
    [flying]. *)
Theorem Pop_returns_oldest
    (host : string) (m : memory) (b : blob) (f : Z) :
  locked (mgr m) = false ->
  index_head host (hostIndex (mgr m)) = Some b ->
  fst (file_append (mkWALEntry OpPop host (id b) (position b) (size b))
                   (walFile (mgr m))) = None ->
  (useCommit (mgr m) = true -> walCommit (mgr m) = Some f) ->
  Go.safe_run prog (fun _ => True)
    (fun c => exists fr,
         Go.threads c
         = [GPop fr (P_Done (if useCommit (mgr m) then u64 (f + 1) else 0,
                             id b, position b, size b, None));
            GPopHelper fr H_Done]
         /\ Go.crashed c = false
         /\ locked (mgr (Go.shared c)) = false
         /\ hostIndex (mgr (Go.shared c))
            = index_remove_head host (hostIndex (mgr m))
         /\ records (walFile (mgr (Go.shared c)))
            = records (walFile (mgr m))
              ++ [mkWALEntry OpPop host (id b) (position b) (size b)]
         /\ walCommit (mgr (Go.shared c))
            = if useCommit (mgr m) then Some (u64 (f + 1))
              else walCommit (mgr m))
    (pop_call host m).
Proof.
  intros Hl Hh Hw Hc. unfold pop_call.
  eapply sr_det; [exact I | cbn; rewrite Hl; reflexivity |].
  repeat any_step.
  rewrite Hh.
  repeat any_step.
  assert (Hrec : exists fl, file_append
                   (mkWALEntry OpPop host (id b) (position b) (size b))
                   (walFile (mgr m))
                 = (None, fl)
                 /\ records fl = records (walFile (mgr m))
                      ++ [mkWALEntry OpPop host (id b) (position b) (size b)]).
  { unfold file_append in *. destruct (closed (walFile (mgr m))); [discriminate|].
    destruct (writeFaults (walFile (mgr m))) as [|[|] ?]; try discriminate;
      eexists; split; reflexivity. }
  destruct Hrec as (fl & Hfa & Hfl).
  eapply sr_det;
    [ exact I
    | cbn -[file_append]; unfold unsafeWriteToWAL; cbn -[file_append];
      rewrite Hfa; cbn; reflexivity |].
  repeat any_step.
  destruct (useCommit (mgr m)) eqn:Huc.
  - specialize (Hc eq_refl).
    eapply sr_det;
      [ exact I | cbn; unfold WALCommit; cbn; rewrite Hc; cbn; reflexivity |].
    repeat any_step.
    apply Go.sr_end; [exact I|reflexivity|].
    cbn. eexists. repeat split; try reflexivity. exact Hfl.
  - repeat any_step.
    apply Go.sr_end; [exact I|reflexivity|].
    cbn. eexists. repeat split; try reflexivity. exact Hfl.
Qed.

Lemma Pop_returns_oldest_witness :
  Go.safe_run prog (fun _ => True)
    (fun c => exists fr,
         Go.threads c
         = [GPop fr (P_Done (if useCommit (mgr (mkMem (grouped_manager 7 5)
                                                      [] [] []))
                             then u64 (7 + 1) else 0,
                             id (mkBlob "b1" 0 10), position (mkBlob "b1" 0 10),
                             size (mkBlob "b1" 0 10), None));
            GPopHelper fr H_Done]
         /\ Go.crashed c = false
         /\ locked (mgr (Go.shared c)) = false
         /\ hostIndex (mgr (Go.shared c))
            = index_remove_head "h" (hostIndex (mgr (mkMem (grouped_manager 7 5)
                                                          [] [] [])))
         /\ records (walFile (mgr (Go.shared c)))
            = records (walFile (mgr (mkMem (grouped_manager 7 5) [] [] [])))
              ++ [mkWALEntry OpPop "h" (id (mkBlob "b1" 0 10))
                             (position (mkBlob "b1" 0 10))
                             (size (mkBlob "b1" 0 10))]
         /\ walCommit (mgr (Go.shared c))
            = if useCommit (mgr (mkMem (grouped_manager 7 5) [] [] []))
              then Some (u64 (7 + 1))
              else walCommit (mgr (mkMem (grouped_manager 7 5) [] [] [])))
    (pop_call "h" (mkMem (grouped_manager 7 5) [] [] [])).
Proof.
  apply (Pop_returns_oldest "h" (mkMem (grouped_manager 7 5) [] [] [])
           (mkBlob "b1" 0 10) 7);
    reflexivity.
Defined.

(** C8. Pop on a host with no blob queued, in either mode: on every
    schedule the call returns, what it returns is the empty-queue error,
    and at every point of the run the WAL file (so its length) and the
    index are what they were; at the end the manager as a whole is what
    it was before the call. *)
Theorem Pop_empty_host_leaves_WAL (host : string) (m : memory) :
  locked (mgr m) = false ->
  index_head host (hostIndex (mgr m)) = None ->
  Go.safe_run prog
    (fun c => walFile (mgr (Go.shared c)) = walFile (mgr m)
              /\ hostIndex (mgr (Go.shared c)) = hostIndex (mgr m))
    (fun c => exists fr,
         Go.threads c = [GPop fr (P_Done (0, "", 0, 0, Some ErrHostEmpty));
                         GPopHelper fr H_Done]
         /\ Go.crashed c = false
         /\ mgr (Go.shared c) = mgr m)
    (pop_call host m).
Proof.
  intros Hl Hh. unfold pop_call.
  eapply sr_det; [frame_ok | cbn; rewrite Hl; reflexivity |].
  repeat frame_step.
  rewrite Hh.
  repeat frame_step.
  apply Go.sr_end.
  - frame_ok.
  - reflexivity.
  - cbn. eexists. split; [reflexivity|]. split; [reflexivity|].
    apply set_locked_false_id. exact Hl.
Qed.

Lemma Pop_empty_host_leaves_WAL_witness :
  Go.safe_run prog
    (fun c => walFile (mgr (Go.shared c))
              = walFile (mgr (mkMem (grouped_manager 7 5) [] [] []))
              /\ hostIndex (mgr (Go.shared c))
                 = hostIndex (mgr (mkMem (grouped_manager 7 5) [] [] [])))
    (fun c => exists fr,
         Go.threads c = [GPop fr (P_Done (0, "", 0, 0, Some ErrHostEmpty));
                         GPopHelper fr H_Done]
         /\ Go.crashed c = false
         /\ mgr (Go.shared c) = mgr (mkMem (grouped_manager 7 5) [] [] []))
    (pop_call "none" (mkMem (grouped_manager 7 5) [] [] [])).
Proof.
  apply (Pop_empty_host_leaves_WAL "none"
           (mkMem (grouped_manager 7 5) [] [] []));
    reflexivity.
Defined.

Ltac pending_ok :=
  cbn; split;
  [ reflexivity
  | intros fr r Hin;
    repeat (apply elem_of_cons in Hin; destruct Hin as [Hin|Hin];
            [discriminate Hin|]);
    apply elem_of_nil in Hin; exact Hin ].
Ltac pending_step := eapply sr_det; [ pending_ok | cbn; reflexivity | ].

(** C1 on the code.  Pop on a host with a blob queued, when the append of
    the POP record fails, in either mode.  On every schedule the run ends
    with no move left and Pop not returned: the caller is inside
    [Index.pop], waiting on [WALSuccessChan] for the verdict, the helper
    is blocked sending the error on [errChan], which the caller reads only
    after [Index.pop], and the manager's lock is still held.  The index is
    never touched. *)
Theorem Pop_wal_failure_never_returns
    (host : string) (m : memory) (b : blob) (e : error) :
  locked (mgr m) = false ->
  index_head host (hostIndex (mgr m)) = Some b ->
  fst (file_append (mkWALEntry OpPop host (id b) (position b) (size b))
                   (walFile (mgr m))) = Some e ->
  Go.safe_run prog
    (fun c => hostIndex (mgr (Go.shared c)) = hostIndex (mgr m)
              /\ forall fr r, GPop fr (P_Done r) ∉ Go.threads c)
    (fun c => exists fr,
         Go.threads c = [GPop fr P_IndexWait;
                         GPopHelper fr (H_SendErr b (Wrapped wal_failed e))]
         /\ Go.crashed c = false
         /\ locked (mgr (Go.shared c)) = true)
    (pop_call host m).
Proof.
  intros Hl Hh Hw. unfold pop_call.
  eapply sr_det; [pending_ok | cbn; rewrite Hl; reflexivity |].
  repeat pending_step.
  rewrite Hh.
  repeat pending_step.
  destruct (file_append (mkWALEntry OpPop host (id b) (position b) (size b))
                        (walFile (mgr m))) as [err f] eqn:Hfa.
  simpl in Hw. subst err.
  eapply sr_det;
    [ pending_ok
    | cbn -[file_append]; unfold unsafeWriteToWAL; cbn -[file_append];
      rewrite Hfa; cbn; reflexivity |].
  apply Go.sr_end.
  - pending_ok.
  - reflexivity.
  - cbn. eexists. split; [reflexivity|]. split; reflexivity.
Qed.

Lemma Pop_wal_failure_never_returns_witness :
  Go.safe_run prog
    (fun c => hostIndex (mgr (Go.shared c))
              = hostIndex (mgr (mkMem (set_walFile failing_file
                                         (grouped_manager 7 5)) [] [] []))
              /\ forall fr r, GPop fr (P_Done r) ∉ Go.threads c)
    (fun c => exists fr,
         Go.threads c = [GPop fr P_IndexWait;
                         GPopHelper fr (H_SendErr (mkBlob "b1" 0 10)
                                          (Wrapped wal_failed ErrIO))]
         /\ Go.crashed c = false
         /\ locked (mgr (Go.shared c)) = true)
    (pop_call "h" (mkMem (set_walFile failing_file (grouped_manager 7 5))
                         [] [] [])).
Proof.
  apply (Pop_wal_failure_never_returns "h"
           (mkMem (set_walFile failing_file (grouped_manager 7 5)) [] [] [])
           (mkBlob "b1" 0 10) ErrIO);
    reflexivity.
Defined.

(** ** The commit counters *)

(** C7. For every commit value, [IsWALCommited] returns, and what it
    returns is [true] exactly when the commit is at most the durable
    counter. *)
Theorem IsWALCommited_iff_le_durable (im : IndexManager) (commit durable : Z) :
  walCommited im = Some durable ->
  exists b, IsWALCommited commit im = Some b /\ (b = true <-> commit <= durable).
Proof.
  intros Hd. unfold IsWALCommited. rewrite Hd. simpl.
  eexists; split; [reflexivity|].
  rewrite bool_decide_eq_true. lia.
Qed.

Lemma IsWALCommited_iff_le_durable_witness :
  exists b, IsWALCommited 3 (grouped_manager 7 5) = Some b
            /\ (b = true <-> 3 <= 5).
Proof.
  apply (IsWALCommited_iff_le_durable (grouped_manager 7 5) 3 5).
  reflexivity.
Defined.

Lemma syncer_ok_succ (i : nat) (t : goroutine) (m : memory) :
  counters_ok m -> syncer_ok i m t ->
  match prog t m with
  | Go.Tau m' t' => syncer_ok i m' t'
  | Go.Make k => forall n, syncer_ok i m (k n)
  | Go.Spawn g t' => (forall j, syncer_ok j m g) /\ syncer_ok i m t'
  | Go.Send (Some _) _ t' => syncer_ok i m t'
  | Go.Recv alts d =>
      (forall a v, In a alts -> syncer_ok i m (snd a v))
      /\ (forall t', d = Some t' -> syncer_ok i m t')
  | Go.CloseCh _ t' => syncer_ok i m t'
  | _ => True
  end.
Proof.
  intros HG HL.
  destruct t as [h|h uc|h uc b|h uc b w|fr|fr pc|fr pc|h b p s pc|n|cm pc|pc
                |e s pc|e s tk pc|tk|pc]; try destruct pc;
    unfold prog, pop_prog, index_pop, helper_prog, add_prog, walcommit_prog,
      await_prog, close_prog, forward_prog, dump_prog, ticker_prog.
  all: try (crunch_succ; auto; fail).
  all: destruct HL as [-> HL]; unfold syncer_prog.
  all: try (crunch_succ; auto; fail).
  - (* S_Load *)
    destruct HG as (f & d & Hf & Hd & H0 & Hdf & Hfm). rewrite Hf.
    simpl. split; [reflexivity|]. intros f' d' Hf' Hd'.
    rewrite Hf in Hf'. rewrite Hd in Hd'. injection Hf' as <-.
    injection Hd' as <-. lia.
  - (* S_Lock *)
    destruct (locked (mgr m)); [exact I|]. simpl. split; [reflexivity|].
    exact HL.
  - (* S_Sync *)
    pose proof (unsafeWalSync_keeps (mgr m)) as (_ & Hf & Hd).
    destruct (unsafeWalSync (mgr m)) as [[err d] im1]. simpl in Hf, Hd.
    destruct err; [destruct (stopping l)|]; destruct (2 * second <? d);
      simpl; (split; [reflexivity|]); try exact I;
      intros f' d'; rewrite Hf, Hd; apply HL.
Qed.

Lemma counters_instr_ok (i : nat) (t : goroutine) (m : memory) :
  counters_ok m -> syncer_ok i m t ->
  instr_ok prog no_wrap counters_ok syncer_ok i t m.
Proof.
  intros HG HL. unfold instr_ok.
  pose proof (syncer_ok_succ i t m HG HL) as Hs.
  destruct (prog t m) as [m' t'|k|g t'|[ch|] v t'|alts d|ch t'| | |] eqn:Hp;
    try exact Hs; try exact I.
  - intros HN. apply prog_tau_frame in Hp.
    destruct HG as (f & d & Hf & Hd & H0 & Hdf & Hfm).
    destruct Hp as [(_ & Hf' & Hd')
                   |[((_ & Hd' & f0 & Hf0 & Hf') & Hns)
                    |(l & -> & _ & Hf' & Hd')]].
    + split; [|split; [exact Hs|]].
      * exists f, d. rewrite Hf', Hd'. auto.
      * intros j tj _ Hj. destruct tj as [| | | | | | | | | | | | | |pc];
          try exact I.
        destruct Hj as [-> Hj]. split; [reflexivity|].
        destruct pc; try exact I; rewrite Hf', Hd'; exact Hj.
    + rewrite Hf in Hf0. injection Hf0 as <-.
      assert (Hlt : f + 1 < u64_mod) by (apply (HN f Hf Hf')).
      assert (Hu : u64 (f + 1) = f + 1) by (apply u64_small; lia).
      rewrite Hu in Hf'.
      split; [|split; [exact Hs|]].
      * exists (f + 1), d. rewrite Hf', Hd'. repeat split; auto; lia.
      * intros j tj _ Hj. destruct tj as [| | | | | | | | | | | | | |pc];
          try exact I.
        destruct Hj as [-> Hj]. split; [reflexivity|].
        destruct pc; try exact I;
          intros f1 d1 Hf1 Hd1; rewrite Hf' in Hf1; rewrite Hd', Hd in Hd1;
          injection Hf1 as <-; injection Hd1 as <-;
          specialize (Hj f d Hf Hd); lia.
    + destruct HL as [-> HL]. specialize (HL f d Hf Hd).
      split; [|split; [exact Hs|]].
      * exists f, (flyingCommit l). rewrite Hf', Hd'. repeat split; auto; lia.
      * intros j tj Hne Hj. destruct tj as [| | | | | | | | | | | | | |pc];
          try exact I.
        destruct Hj as [-> _]. contradiction.
  - destruct Hs as [Hg Ht']. split; [exact Ht'|exact Hg].
Qed.

(** One step of a run whose moves do not wrap [flying]: [durable] does not
    decrease, and [flying] stays or grows by one. *)
Lemma step_counters (c c' : config) :
  inv counters_ok syncer_ok c ->
  Go.step prog c c' ->
  no_wrap (Go.shared c) (Go.shared c') ->
  inv counters_ok syncer_ok c'
  /\ durable c <= durable c'
  /\ ((walCommit (mgr (Go.shared c')) = walCommit (mgr (Go.shared c))
       /\ flying c' = flying c)
      \/ (walCommit (mgr (Go.shared c')) <> walCommit (mgr (Go.shared c))
          /\ flying c' = flying c + 1)).
Proof.
  intros Hinv Hstep HN.
  split.
  { eapply (step_inv prog no_wrap); [|exact Hinv|exact Hstep|exact HN].
    intros i t m. apply counters_instr_ok. }
  unfold durable, flying.
  destruct (step_shared prog c c' Hstep) as [->|(i & t & t' & Hi & Hp)].
  { split; [lia|]. left. split; reflexivity. }
  destruct Hinv as [(f & d & Hf & Hd & H0 & Hdf & Hfm) HL].
  specialize (HL i t Hi).
  apply prog_tau_frame in Hp.
  destruct Hp as [(_ & Hf' & Hd')
                 |[((_ & Hd' & f0 & Hf0 & Hf') & Hns)
                  |(l & -> & _ & Hf' & Hd')]].
  - rewrite Hf', Hd'. split; [lia|]. left. split; reflexivity.
  - rewrite Hf in Hf0. injection Hf0 as <-.
    assert (Hlt : f + 1 < u64_mod) by (apply (HN f Hf Hf')).
    assert (Hu : u64 (f + 1) = f + 1) by (apply u64_small; lia).
    rewrite Hd', Hf', Hf, Hu. simpl. split; [lia|].
    right. split; [|reflexivity]. intros [= Heq]. lia.
  - destruct HL as [_ HL]. specialize (HL f d Hf Hd).
    rewrite Hf', Hd', Hd. simpl. split; [lia|]. left. split; reflexivity.
Qed.

Lemma inv_durable_le_flying (c : config) :
  inv counters_ok syncer_ok c ->
  0 <= durable c /\ durable c <= flying c /\ flying c < u64_mod.
Proof.
  intros [(f & d & Hf & Hd & H0 & Hdf & Hfm) _].
  unfold durable, flying. rewrite Hf, Hd. simpl. lia.
Qed.

Lemma run_counters (cs : list config) :
  forall c,
    inv counters_ok syncer_ok c ->
    Go.run prog c cs ->
    flying c + Z.of_nat (length (issued c cs)) < u64_mod ->
    Forall (fun c' => durable c' <= flying c') cs
    /\ Forall (fun c' => durable c <= durable c') cs
    /\ Forall (fun x => flying c < x) (issued c cs)
    /\ StronglySorted Z.lt (issued c cs)
    /\ StronglySorted Z.le (map durable cs).
Proof.
  induction cs as [|c1 cs IH]; intros c Hinv Hrun Hlen.
  { simpl. repeat split; constructor. }
  destruct Hrun as [Hstep Hrun]. simpl in Hlen |- *.
  pose proof (inv_durable_le_flying c Hinv) as Hc.
  assert (HN : no_wrap (Go.shared c) (Go.shared c1)).
  { intros f Hf Hf1.
    assert (Hff : flying c = f) by (unfold flying; rewrite Hf; reflexivity).
    rewrite bool_decide_eq_false_2 in Hlen.
    - rewrite length_app in Hlen. simpl in Hlen. lia.
    - rewrite Hf, Hf1. intros [= Heq]. apply (u64_succ_ne f); [lia|exact Heq]. }
  destruct (step_counters c c1 Hinv Hstep HN) as (Hinv1 & Hd1 & Hfl).
  pose proof (inv_durable_le_flying c1 Hinv1) as Hc1.
  destruct Hfl as [[Heq Hfl]|[Hne Hfl]].
  - rewrite bool_decide_eq_true_2 in Hlen |- * by exact Heq.
    simpl in Hlen |- *.
    destruct (IH c1 Hinv1 Hrun) as (Ha & Hb & Hi & Hs & Hsd); [lia|].
    split; [constructor; [lia|exact Ha]|].
    split; [constructor; [lia|]|].
    { eapply Forall_impl; [exact Hb|]. simpl. intros; lia. }
    split; [eapply Forall_impl; [exact Hi|]; simpl; intros; lia|].
    split; [exact Hs|].
    constructor; [exact Hsd|]. apply Forall_map. exact Hb.
  - rewrite bool_decide_eq_false_2 in Hlen |- * by exact Hne.
    rewrite length_app in Hlen. simpl in Hlen |- *.
    destruct (IH c1 Hinv1 Hrun) as (Ha & Hb & Hi & Hs & Hsd); [lia|].
    split; [constructor; [lia|exact Ha]|].
    split; [constructor; [lia|]|].
    { eapply Forall_impl; [exact Hb|]. simpl. intros; lia. }
    split; [constructor; [lia|]|].
    { eapply Forall_impl; [exact Hi|]. simpl. intros; lia. }
    split; [constructor; [exact Hs|exact Hi]|].
    constructor; [exact Hsd|]. apply Forall_map. exact Hb.
Qed.

Lemma NewIndexManager_grouped_mode (fs : FS) (c0 : config)
    (clients : list goroutine) :
  NewIndexManager fs true = inr c0 ->
  Forall is_call clients ->
  inv counters_ok syncer_ok (with_clients clients c0) /\ flying c0 = 0.
Proof.
  unfold NewIndexManager.
  destruct (open_wal fs) as [?|wal]; [discriminate|].
  destruct (open_index fs) as [?|ixf]; [discriminate|].
  destruct (unsafeIsWALEmpty _ _) as [empty [?|]]; [discriminate|].
  intros Hnew Hcl.
  assert (Hc0 : walCommit (mgr (Go.shared c0)) = Some 0
                /\ walCommited (mgr (Go.shared c0)) = Some 0
                /\ exists a b tk, Go.threads c0
                   = [GTicker tk; GForward a b F_Select; GDump a b tk D_Select;
                      GSyncer S_Start]).
  { destruct (negb empty).
    - unfold RecoverFromCrash, loadIndex, performDump in Hnew. simpl in Hnew.
      destruct (writeFaults ixf) as [|[|] ?]; simpl in Hnew;
        try discriminate Hnew;
        injection Hnew as <-; simpl; (split; [reflexivity|]);
        (split; [reflexivity|]); do 3 eexists; reflexivity.
    - simpl in Hnew. injection Hnew as <-. simpl.
      split; [reflexivity|]. split; [reflexivity|].
      do 3 eexists; reflexivity. }
  destruct Hc0 as (Hf & Hd & a & b & tk & Hth).
  split; [|unfold flying; rewrite Hf; reflexivity].
  split.
  - exists 0, 0. simpl. unfold u64_mod. repeat split; auto; lia.
  - intros i t Hi. simpl in Hi. rewrite Hth in Hi.
    destruct i as [|[|[|[|i]]]]; simpl in Hi.
    1-3: injection Hi as <-; exact I.
    + injection Hi as <-. split; [reflexivity|exact I].
    + apply list_elem_of_lookup_2 in Hi. rewrite Forall_forall in Hcl.
      apply Hcl in Hi. destruct t; try exact I. destruct Hi.
Qed.

(** C3, as amended.  In grouped-commit mode, on every run of a manager
    and its clients from construction on, as long as fewer than 2^64
    commit ids have been issued: [durable <= flying] holds in every
    configuration of the run, the commit ids are strictly increasing in
    issue order, and [durable] never decreases. *)
Theorem commit_counters_monotone
    (fs : FS) (c0 : config) (clients : list goroutine) (cs : list config) :
  NewIndexManager fs true = inr c0 ->
  Forall is_call clients ->
  Go.run prog (with_clients clients c0) cs ->
  Z.of_nat (length (issued (with_clients clients c0) cs)) < u64_mod ->
  Forall (fun c => durable c <= flying c) (with_clients clients c0 :: cs)
  /\ StronglySorted Z.lt (issued (with_clients clients c0) cs)
  /\ StronglySorted Z.le (map durable (with_clients clients c0 :: cs)).
Proof.
  intros Hnew Hcl Hrun Hlen.
  destruct (NewIndexManager_grouped_mode fs c0 clients Hnew Hcl) as [Hinv Hf0].
  assert (Hfl : flying (with_clients clients c0) = 0) by exact Hf0.
  destruct (run_counters cs _ Hinv Hrun) as (Ha & Hb & _ & Hs & Hsd); [lia|].
  pose proof (inv_durable_le_flying _ Hinv) as Hc.
  split; [constructor; [lia|exact Ha]|].
  split; [exact Hs|].
  simpl. constructor; [exact Hsd|]. apply Forall_map. exact Hb.
Qed.

(** A run of fourteen moves: a commit, the syncer up to its store with
    [flyingCommit] 1, a second commit, then the store and the rest of the
    iteration. *)
Lemma commit_counters_monotone_witness :
  Forall (fun c => durable c <= flying c)
         (with_clients [GWALCommit 2] grouped_boot
          :: Go.follow prog [2; 1; 1; 1; 1; 1; 1; 1; 1; 2; 1; 1; 1; 1]%nat
                       (with_clients [GWALCommit 2] grouped_boot))
  /\ StronglySorted Z.lt
       (issued (with_clients [GWALCommit 2] grouped_boot)
               (Go.follow prog [2; 1; 1; 1; 1; 1; 1; 1; 1; 2; 1; 1; 1; 1]%nat
                          (with_clients [GWALCommit 2] grouped_boot)))
  /\ StronglySorted Z.le
       (map durable
            (with_clients [GWALCommit 2] grouped_boot
             :: Go.follow prog [2; 1; 1; 1; 1; 1; 1; 1; 1; 2; 1; 1; 1; 1]%nat
                          (with_clients [GWALCommit 2] grouped_boot))).
Proof.
  apply (commit_counters_monotone fresh_fs grouped_boot [GWALCommit 2]).
  - reflexivity.
  - repeat constructor.
  - apply follow_run. vm_compute. reflexivity.
  - vm_compute. reflexivity.
Defined.

(** What that run shows: the ids 1 and 2 are issued, and [durable] goes
    from 0 to 1 while [flying] is 2. *)
Example commit_counters_run :
  issued (with_clients [GWALCommit 2] grouped_boot)
         (Go.follow prog [2; 1; 1; 1; 1; 1; 1; 1; 1; 2; 1; 1; 1; 1]%nat
                    (with_clients [GWALCommit 2] grouped_boot))
  = [1; 2]
  /\ map (fun c => (flying c, durable c))
         (Go.follow prog [2; 1; 1; 1; 1; 1; 1; 1; 1; 2; 1; 1; 1; 1]%nat
                    (with_clients [GWALCommit 2] grouped_boot))
     = [(1, 0); (1, 0); (1, 0); (1, 0); (1, 0); (1, 0); (1, 0); (1, 0);
        (1, 0); (2, 0); (2, 1); (2, 1); (2, 1); (2, 1)].
Proof. split; vm_compute; reflexivity. Qed.

Lemma grouped_boot_new : NewIndexManager fresh_fs true = inr grouped_boot.
Proof. reflexivity. Qed.

Lemma commit_move_spec (c : config) (n : nat) (f : Z) :
  Go.crashed c = false ->
  length (Go.threads c) = 5%nat ->
  Go.threads c !! 4%nat = Some (GWALCommit (S n)) ->
  walCommit (mgr (Go.shared c)) = Some f ->
  Go.step prog c (commit_move c)
  /\ Go.crashed (commit_move c) = false
  /\ length (Go.threads (commit_move c)) = 5%nat
  /\ Go.threads (commit_move c) !! 4%nat = Some (GWALCommit n)
  /\ walCommit (mgr (Go.shared (commit_move c))) = Some (u64 (f + 1)).
Proof.
  intros Hcr Hlen Hth Hf.
  assert (Hts : Go.thread_steps prog c 4
                = [Go.mkConfig
                     (with_mgr (set_walCommit (Some (u64 (f + 1)))
                                              (mgr (Go.shared c)))
                               (Go.shared c))
                     (Go.next_chan c) (Go.closed_chans c)
                     (<[4%nat := GWALCommit n]> (Go.threads c)) false]).
  { unfold Go.thread_steps. rewrite Hth. simpl. unfold WALCommit.
    rewrite Hf. reflexivity. }
  unfold commit_move. rewrite Hts. simpl.
  split.
  { unfold Go.step, Go.steps. rewrite Hcr.
    apply list_elem_of_In, in_flat_map. exists 4%nat.
    split; [apply in_seq; lia|]. rewrite Hts. left. reflexivity. }
  split; [reflexivity|]. split; [rewrite length_insert; exact Hlen|].
  split; [|reflexivity].
  apply list_lookup_insert_eq. lia.
Qed.

Lemma commit_path_spec (k : nat) :
  forall (c : config) (f : Z),
    Go.crashed c = false ->
    length (Go.threads c) = 5%nat ->
    Go.threads c !! 4%nat = Some (GWALCommit k) ->
    walCommit (mgr (Go.shared c)) = Some f ->
    0 <= f < u64_mod ->
    Go.run prog c (commit_path k c)
    /\ issued c (commit_path k c) = ids_from f k.
Proof.
  induction k as [|k IH]; intros c f Hcr Hlen Hth Hf Hrange.
  { split; [exact I|reflexivity]. }
  destruct (commit_move_spec c k f Hcr Hlen Hth Hf)
    as (Hstep & Hcr' & Hlen' & Hth' & Hf').
  destruct (IH (commit_move c) (u64 (f + 1)) Hcr' Hlen' Hth' Hf'
               (u64_range _)) as [Hrun Hiss].
  split; [split; [exact Hstep|exact Hrun]|].
  simpl. rewrite Hiss.
  rewrite bool_decide_eq_false_2.
  - unfold flying. rewrite Hf'. reflexivity.
  - rewrite Hf, Hf'. intros [= Heq]. exact (u64_succ_ne f Hrange Heq).
Qed.

Lemma ids_from_app (k1 k2 : nat) :
  forall f, 0 <= f < u64_mod ->
    ids_from f (k1 + k2)
    = ids_from f k1 ++ ids_from (u64 (f + Z.of_nat k1)) k2.
Proof.
  induction k1 as [|k1 IH]; intros f Hf.
  { simpl. rewrite Z.add_0_r, u64_small by exact Hf. reflexivity. }
  change (S k1 + k2)%nat with (S (k1 + k2)).
  cbn [ids_from app]. f_equal.
  rewrite IH by apply u64_range. f_equal. f_equal.
  unfold u64. rewrite Zplus_mod_idemp_l. f_equal. lia.
Qed.

Lemma StronglySorted_last_two (l : list Z) (x y : Z) :
  StronglySorted Z.lt (l ++ [x; y]) -> x < y.
Proof.
  induction l as [|a l IH]; simpl; intros Hs.
  - inversion Hs as [|? ? _ Hall]; subst. inversion Hall; subst. assumption.
  - inversion Hs; subst. apply IH. assumption.
Qed.

(** C3 as stated fails when the counter wraps.  On a fresh store in
    grouped-commit mode a client calls [WALCommit] 2^64 times: the ids
    issued end with 2^64 - 1 followed by 0, so they are not strictly
    increasing. *)
Lemma commit_ids_wrap :
  exists cs,
    NewIndexManager fresh_fs true = inr grouped_boot
    /\ Go.run prog (with_clients [GWALCommit (Z.to_nat u64_mod)] grouped_boot)
              cs
    /\ ~ StronglySorted Z.lt
         (issued (with_clients [GWALCommit (Z.to_nat u64_mod)] grouped_boot)
                 cs).
Proof.
  assert (HN : Z.to_nat u64_mod = (Z.to_nat (u64_mod - 2) + 2)%nat).
  { unfold u64_mod. lia. }
  assert (Hk : Z.of_nat (Z.to_nat (u64_mod - 2)) = u64_mod - 2).
  { apply Z2Nat.id. unfold u64_mod. lia. }
  rewrite HN. clear HN.
  generalize dependent (Z.to_nat (u64_mod - 2)). intros k Hk.
  exists (commit_path (k + 2)
            (with_clients [GWALCommit (k + 2)] grouped_boot)).
  destruct (commit_path_spec (k + 2)
              (with_clients [GWALCommit (k + 2)] grouped_boot) 0)
    as [Hrun Hiss]; try reflexivity.
  { unfold u64_mod. lia. }
  split; [reflexivity|]. split; [exact Hrun|].
  rewrite Hiss, ids_from_app by (unfold u64_mod; lia).
  intros Hs. apply StronglySorted_last_two in Hs.
  rewrite Z.add_0_l, Hk in Hs.
  vm_compute in Hs. discriminate Hs.
Qed.

(** ** The commit syncer *)

(** C4. One iteration of the syncer's loop, whatever the other
    goroutines do to the memory between its steps ([m0] is the memory at
    the load of [flying], [m] the memory at the fsync, [m2] the memory at
    the store).  The load keeps the value of [flying] in [flyingCommit].
    The fsync step never changes [durable].  If the fsync fails and the
    syncer is not stopping, the syncer is back at the top of its loop,
    still not stopping, and goes on to the next cycle; if the fsync
    succeeds, the next step stores into [durable] the value of [flying]
    that was loaded before the fsync. *)
Theorem syncer_iteration_durable
    (l : syncer_locals) (m0 : memory) (flying : Z) :
  walCommit (mgr m0) = Some flying ->
  Go.tau prog (GSyncer (S_Load l)) m0
  = Some (m0, GSyncer (S_Lock (set_flyingCommit flying l)))
  /\ (forall m,
         locked (mgr m) = false ->
         Go.tau prog (GSyncer (S_Lock (set_flyingCommit flying l))) m
         = Some (on_mgr (set_locked true) m,
                 GSyncer (S_Sync (set_flyingCommit flying l))))
  /\ (forall m,
         exists m' g,
           Go.tau prog (GSyncer (S_Sync (set_flyingCommit flying l))) m
           = Some (m', g)
           /\ walCommited (mgr m') = walCommited (mgr m)
           /\ match fst (fst (unsafeWalSync (mgr m))) with
              | Some _ =>
                  if stopping l then g = GSyncer S_Exit
                  else exists l',
                      g = GSyncer (S_Top l')
                      /\ stopping l' = false
                      /\ forall m'',
                          Go.tau prog (GSyncer (S_Top l')) m''
                          = Some (m'', GSyncer (S_Select l'))
              | None =>
                  exists l',
                    g = GSyncer (S_Store l')
                    /\ flyingCommit l' = flying
                    /\ forall m2,
                        exists m2',
                          Go.tau prog (GSyncer (S_Store l')) m2
                          = Some (m2', GSyncer (S_Drain l'))
                          /\ walCommited (mgr m2') = Some flying
              end).
Proof.
  intros Hf. split; [|split].
  - unfold Go.tau. simpl. rewrite Hf. reflexivity.
  - intros m Hl. unfold Go.tau. simpl. rewrite Hl. reflexivity.
  - intros m. unfold Go.tau. simpl.
    unfold unsafeWalSync.
    destruct (file_sync (walFile (mgr m))) as [[err d] f]. simpl.
    destruct err as [e|]; simpl.
    + destruct (stopping l) eqn:Hstop; simpl.
      * do 2 eexists. split; [reflexivity|]. split; [|reflexivity].
        destruct (2 * second <? d); reflexivity.
      * do 2 eexists. split; [reflexivity|]. split.
        { destruct (2 * second <? d); reflexivity. }
        eexists. split; [reflexivity|]. split; [exact Hstop|].
        intros m''. simpl. rewrite Hstop. reflexivity.
    + do 2 eexists. split; [reflexivity|]. split.
      { destruct (2 * second <? d); reflexivity. }
      eexists. split; [reflexivity|]. split; [reflexivity|].
      intros m2. eexists. split; reflexivity.
Qed.

Lemma syncer_iteration_durable_witness :
  Go.tau prog (GSyncer (S_Load (mkSL false 0 0 0 0)))
         (mkMem (grouped_manager 7 5) [] [] [])
  = Some (mkMem (grouped_manager 7 5) [] [] [],
          GSyncer (S_Lock (set_flyingCommit 7 (mkSL false 0 0 0 0))))
  /\ (forall m,
         locked (mgr m) = false ->
         Go.tau prog (GSyncer (S_Lock (set_flyingCommit 7 (mkSL false 0 0 0 0))))
                m
         = Some (on_mgr (set_locked true) m,
                 GSyncer (S_Sync (set_flyingCommit 7 (mkSL false 0 0 0 0)))))
  /\ (forall m,
         exists m' g,
           Go.tau prog
                  (GSyncer (S_Sync (set_flyingCommit 7 (mkSL false 0 0 0 0))))
                  m
           = Some (m', g)
           /\ walCommited (mgr m') = walCommited (mgr m)
           /\ match fst (fst (unsafeWalSync (mgr m))) with
              | Some _ =>
                  if stopping (mkSL false 0 0 0 0) then g = GSyncer S_Exit
                  else exists l',
                      g = GSyncer (S_Top l')
                      /\ stopping l' = false
                      /\ forall m'',
                          Go.tau prog (GSyncer (S_Top l')) m''
                          = Some (m'', GSyncer (S_Select l'))
              | None =>
                  exists l',
                    g = GSyncer (S_Store l')
                    /\ flyingCommit l' = 7
                    /\ forall m2,
                        exists m2',
                          Go.tau prog (GSyncer (S_Store l')) m2
                          = Some (m2', GSyncer (S_Drain l'))
                          /\ walCommited (mgr m2') = Some 7
              end).
Proof.
  apply (syncer_iteration_durable (mkSL false 0 0 0 0)
           (mkMem (grouped_manager 7 5) [] [] []) 7).
  reflexivity.
Defined.

(** C5 at a failing input.  With [WalIoPercent] 60, a last sync of one
    second and the default minimum interval, the syncer sleeps the minimum
    interval of 10 ms: the quotient [(100 - 60) / 60] is taken first and is
    zero.  The specification's formula gives two thirds of a second, and
    666666666 ns when evaluated in integers from left to right.  The first
    part says that this sleep time is what every iteration of the syncer
    passes to [time.Sleep]. *)
Theorem sleepTime_truncates_ratio :
  (forall l m,
      Go.tau prog (GSyncer (S_Sleep l)) m
      = Some (sleep (sleepTime (lastTrySyncDuration l) (WalIoPercent (mgr m))
                               (WalMinInterval (mgr m))) m,
              GSyncer (S_Load l)))
  /\ sleepTime second 60 (10 * millisecond) = 10 * millisecond
  /\ spec_sleep_int second 60 (10 * millisecond) = 666666666
  /\ (spec_sleep second 60 (10 * millisecond) == 2000000000 # 3)%Q
  /\ ~ (inject_Z (sleepTime second 60 (10 * millisecond))
        == spec_sleep second 60 (10 * millisecond))%Q.
Proof.
  split; [reflexivity|].
  split; [reflexivity|].
  split; [reflexivity|].
  split; [reflexivity|].
  vm_compute. discriminate.
Qed.

(** When [WalIoPercent] divides [100 - WalIoPercent] (as the default 10
    does) and the product does not overflow, the sleep time of the code is
    the specification's formula evaluated in integers. *)
Theorem sleepTime_exact_when_divides (last p minInterval : Z) :
  1 <= p <= 100 ->
  (100 - p) mod p = 0 ->
  0 <= last ->
  last * 99 < 2 ^ 63 ->
  sleepTime last p minInterval = spec_sleep_int last p minInterval.
Proof.
  intros Hp Hdiv Hlast Hbig. unfold sleepTime, spec_sleep_int.
  assert (Hq : 100 - p = p * ((100 - p) / p)).
  { apply Z.div_exact; lia. }
  set (q := (100 - p) / p) in *.
  assert (Hq0 : 0 <= q <= 99).
  { split.
    - apply Z.div_pos; lia.
    - assert (q <= 100 - p) by nia. lia. }
  rewrite Z.quot_div_nonneg by lia. fold q.
  replace (Z.quot (last * (100 - p)) p) with (last * q).
  2:{ rewrite Hq. rewrite Z.quot_div_nonneg by nia.
      replace (last * (p * q)) with (last * q * p) by ring.
      rewrite Z.div_mul by lia. reflexivity. }
  assert (Hi : i64 (last * q) = last * q).
  { unfold i64. rewrite Z.mod_small by nia. lia. }
  rewrite Hi. destruct (last * q <? minInterval) eqn:Hlt.
  - apply Z.ltb_lt in Hlt. lia.
  - apply Z.ltb_ge in Hlt. lia.
Qed.

Lemma sleepTime_exact_when_divides_witness :
  sleepTime second 10 (10 * millisecond)
  = spec_sleep_int second 10 (10 * millisecond).
Proof.
  apply (sleepTime_exact_when_divides second 10 (10 * millisecond));
    [lia | reflexivity | unfold second; lia | unfold second; lia].
Defined.

(** ** AwaitWALCommitted *)

(** The wait loop over an inbox whose first id to reach [commit] is [v]. *)
Lemma await_loop_returns (commit n : Z) :
  - 2 ^ 63 <= n < 2 ^ 63 ->
  forall (pre : list Z) (v : Z) (post : list val) (fuel : nat) (m : memory),
    walNotifyListeners (mgr m) = Some n ->
    Forall (fun x => x < commit) pre ->
    commit <= v ->
    (3 * length pre + 4 <= fuel)%nat ->
    exists tr,
      Go.solo prog fuel (map VU64 pre ++ VU64 v :: post)
              (GAwait commit W_Inc) m
      = (tr, GAwait commit W_Done, post)
      /\ listeners_seen tr = flat_map (await_round n) (pre ++ [v]).
Proof.
  intros Hn.
  induction pre as [|x pre IH]; intros v post fuel m Hl Hpre Hv Hfuel.
  - destruct fuel as [|[|[|fuel]]]; simpl in Hfuel; try lia.
    erewrite solo_tau by (simpl; rewrite Hl; reflexivity).
    simpl app.
    erewrite solo_recv by reflexivity.
    erewrite solo_tau by (simpl; reflexivity).
    replace (v >=? commit) with true by (symmetry; apply Z.geb_le; lia).
    rewrite (solo_halt prog) by reflexivity.
    eexists. split; [reflexivity|].
    simpl. unfold await_round. rewrite i64_inc_dec by exact Hn. reflexivity.
  - destruct fuel as [|[|[|fuel]]]; simpl in Hfuel; try lia.
    erewrite solo_tau by (simpl; rewrite Hl; reflexivity).
    simpl app.
    erewrite solo_recv by reflexivity.
    erewrite solo_tau by (simpl; reflexivity).
    inversion Hpre as [|? ? Hx Hpre']; subst.
    replace (x >=? commit) with false
      by (symmetry; rewrite Z.geb_leb; apply Z.leb_gt; lia).
    edestruct (IH v post fuel) as (tr & Hrun & Hseen);
      [| exact Hpre' | exact Hv | lia |].
    2:{ rewrite Hrun. eexists. split; [reflexivity|].
        simpl. rewrite Hseen. unfold await_round at 2.
        rewrite i64_inc_dec by exact Hn. reflexivity. }
    simpl. rewrite i64_inc_dec by exact Hn. reflexivity.
Qed.

(** The wait loop over an inbox none of whose ids reaches [commit]: the
    goroutine ends blocked in the receive, counted as a listener. *)
Lemma await_loop_blocks (commit n : Z) :
  - 2 ^ 63 <= n < 2 ^ 63 ->
  forall (ids : list Z) (fuel : nat) (m : memory),
    walNotifyListeners (mgr m) = Some n ->
    Forall (fun x => x < commit) ids ->
    (3 * length ids + 2 <= fuel)%nat ->
    exists tr,
      Go.solo prog fuel (map VU64 ids) (GAwait commit W_Inc) m
      = (tr, GAwait commit W_Recv, [])
      /\ listeners_seen tr
         = flat_map (await_round n) ids ++ [(None, Some (i64 (n + 1)))].
Proof.
  intros Hn.
  induction ids as [|x ids IH]; intros fuel m Hl Hids Hfuel.
  - destruct fuel as [|fuel]; simpl in Hfuel; try lia.
    erewrite solo_tau by (simpl; rewrite Hl; reflexivity).
    simpl map.
    erewrite (solo_blocked prog) by reflexivity.
    eexists. split; reflexivity.
  - destruct fuel as [|[|[|fuel]]]; simpl in Hfuel; try lia.
    erewrite solo_tau by (simpl; rewrite Hl; reflexivity).
    simpl map.
    erewrite solo_recv by reflexivity.
    erewrite solo_tau by (simpl; reflexivity).
    inversion Hids as [|? ? Hx Hids']; subst.
    replace (x >=? commit) with false
      by (symmetry; rewrite Z.geb_leb; apply Z.leb_gt; lia).
    edestruct (IH fuel) as (tr & Hrun & Hseen); [| exact Hids' | lia |].
    2:{ rewrite Hrun. eexists. split; [reflexivity|].
        simpl. rewrite Hseen. unfold await_round at 2.
        rewrite i64_inc_dec by exact Hn. reflexivity. }
    simpl. rewrite i64_inc_dec by exact Hn. reflexivity.
Qed.

(** C6. [AwaitWALCommitted] run on its own against the ids [inbox] that
    the notify channel delivers, with fuel enough for the whole inbox.
    - With commit 0 it logs the warning and returns: nothing else changes
      and nothing is received.
    - With a commit that is not zero and already durable it returns
      without touching the manager and without receiving.
    - Otherwise every round increments [walNotifyListeners], then
      receives one id with the count still incremented, then decrements
      the count; the rounds go on for the ids below [commit] and the call
      returns after the round of the first id [v] that reaches [commit],
      leaving the later ids in the channel.
    - If no id of the inbox reaches [commit], the call ends blocked in the
      receive, after the increment. *)
Theorem AwaitWALCommitted_protocol
    (commit : Z) (m : memory) (inbox : list val) (fuel : nat) :
  (3 * length inbox + 6 <= fuel)%nat ->
  (commit = 0 ->
   Go.solo prog fuel inbox (GAwait commit W_Start) m
   = ([(None, log warn_commit0 m)], GAwait commit W_Done, inbox))
  /\ (forall durable,
         commit <> 0 ->
         walCommited (mgr m) = Some durable ->
         commit <= durable ->
         exists tr,
           Go.solo prog fuel inbox (GAwait commit W_Start) m
           = (tr, GAwait commit W_Done, inbox)
           /\ Forall (fun x => fst x = None /\ mgr (snd x) = mgr m) tr)
  /\ (forall durable n pre v post,
         commit <> 0 ->
         walCommited (mgr m) = Some durable ->
         durable < commit ->
         walNotifyListeners (mgr m) = Some n ->
         - 2 ^ 63 <= n < 2 ^ 63 ->
         inbox = map VU64 pre ++ VU64 v :: post ->
         Forall (fun x => x < commit) pre ->
         commit <= v ->
         exists tr,
           Go.solo prog fuel inbox (GAwait commit W_Start) m
           = (tr, GAwait commit W_Done, post)
           /\ listeners_seen tr
              = [(None, Some n); (None, Some n)]
                ++ flat_map (await_round n) (pre ++ [v]))
  /\ (forall durable n ids,
         commit <> 0 ->
         walCommited (mgr m) = Some durable ->
         durable < commit ->
         walNotifyListeners (mgr m) = Some n ->
         - 2 ^ 63 <= n < 2 ^ 63 ->
         inbox = map VU64 ids ->
         Forall (fun x => x < commit) ids ->
         exists tr,
           Go.solo prog fuel inbox (GAwait commit W_Start) m
           = (tr, GAwait commit W_Recv, [])
           /\ listeners_seen tr
              = [(None, Some n); (None, Some n)]
                ++ flat_map (await_round n) ids
                ++ [(None, Some (i64 (n + 1)))]).
Proof.
  intros Hfuel.
  destruct fuel as [|[|fuel]]; try lia.
  assert (Hstart : forall c, c <> 0 ->
            exists m1, prog (GAwait c W_Start) m = Go.Tau m1 (GAwait c W_Check)
                       /\ mgr m1 = mgr m).
  { intros c Hc. simpl. apply Z.eqb_neq in Hc. rewrite Hc.
    destruct (walSyncerRunning (mgr m)); eexists; split; reflexivity. }
  split; [|split; [|split]].
  - intros ->. erewrite solo_tau by reflexivity.
    rewrite (solo_halt prog) by reflexivity. reflexivity.
  - intros durable Hc Hd Hle.
    destruct (Hstart commit Hc) as (m1 & Hp & Hm1).
    erewrite solo_tau by exact Hp.
    erewrite solo_tau.
    2:{ simpl. unfold IsWALCommited. rewrite Hm1, Hd. simpl.
        rewrite bool_decide_eq_true_2 by lia. reflexivity. }
    rewrite (solo_halt prog) by reflexivity.
    eexists. split; [reflexivity|].
    repeat constructor; assumption.
  - intros durable n pre v post Hc Hd Hlt Hl Hn -> Hpre Hv.
    destruct (Hstart commit Hc) as (m1 & Hp & Hm1).
    erewrite solo_tau by exact Hp.
    erewrite solo_tau.
    2:{ simpl. unfold IsWALCommited. rewrite Hm1, Hd. simpl.
        rewrite bool_decide_eq_false_2 by lia. reflexivity. }
    rewrite length_app, length_map in Hfuel. simpl in Hfuel.
    destruct (await_loop_returns commit n Hn pre v post fuel m1)
      as (tr & Hrun & Hseen);
      [rewrite Hm1; exact Hl | exact Hpre | exact Hv | lia |].
    rewrite Hrun. eexists. split; [reflexivity|].
    simpl. rewrite Hseen, Hm1, Hl. reflexivity.
  - intros durable n ids Hc Hd Hlt Hl Hn -> Hids.
    destruct (Hstart commit Hc) as (m1 & Hp & Hm1).
    erewrite solo_tau by exact Hp.
    erewrite solo_tau.
    2:{ simpl. unfold IsWALCommited. rewrite Hm1, Hd. simpl.
        rewrite bool_decide_eq_false_2 by lia. reflexivity. }
    rewrite length_map in Hfuel.
    destruct (await_loop_blocks commit n Hn ids fuel m1)
      as (tr & Hrun & Hseen); [rewrite Hm1; exact Hl | exact Hids | lia |].
    rewrite Hrun. eexists. split; [reflexivity|].
    simpl. rewrite Hseen, Hm1, Hl. reflexivity.
Qed.

Lemma AwaitWALCommitted_protocol_witness :
  exists tr,
    Go.solo prog 30 (map VU64 [6; 7] ++ VU64 8 :: [VU64 9])
            (GAwait 8 W_Start) (mkMem (grouped_manager 9 5) [] [] [])
    = (tr, GAwait 8 W_Done, [VU64 9])
    /\ listeners_seen tr
       = [(None, Some 0); (None, Some 0)]
         ++ flat_map (await_round 0) ([6; 7] ++ [8]).
Proof.
  apply (proj1 (proj2 (proj2
           (AwaitWALCommitted_protocol 8 (mkMem (grouped_manager 9 5) [] [] [])
              (map VU64 [6; 7] ++ VU64 8 :: [VU64 9]) 30
              ltac:(simpl; lia)))) 5 0 [6; 7] 8 [VU64 9]);
    try reflexivity; try lia.
  repeat constructor; lia.
Defined.

(** ** Construction and shutdown *)

(** C9. When both files open and the WAL holds a record,
    [NewIndexManager] runs the crash recovery before it returns: the
    manager it returns is the one [RecoverFromCrash] leaves, which holds
    the WAL replayed over the snapshot, with the fresh snapshot of that
    index on disk and the WAL empty, and the goroutines it started have
    not run yet; if recovery fails, so does the construction.  When the
    WAL is empty the manager is the one [loadIndex] leaves: the snapshot
    alone is loaded and both files are as they were opened. *)
Theorem NewIndexManager_recovers_nonempty_wal
    (fs : FS) (useCommit : bool) (wal ixf : File) :
  open_wal fs = inr wal ->
  open_index fs = inr ixf ->
  stat_fails fs = false ->
  (records wal <> [] ->
   match NewIndexManager fs useCommit with
   | inr c =>
       let im := mgr (Go.shared c) in
       RecoverFromCrash (new_manager wal ixf useCommit) = (None, im)
       /\ hostIndex im = replay (records wal) (replay (records ixf) ∅)
       /\ records (walFile im) = []
       /\ records (indexFile im) = snapshot_entries (hostIndex im)
       /\ locked im = false
       /\ started useCommit c
   | inl e =>
       e = Wrapped recover_failed ErrIO
       /\ fst (RecoverFromCrash (new_manager wal ixf useCommit)) = Some ErrIO
   end)
  /\ (records wal = [] ->
      exists c,
        NewIndexManager fs useCommit = inr c
        /\ loadIndex (new_manager wal ixf useCommit)
           = (None, mgr (Go.shared c))
        /\ hostIndex (mgr (Go.shared c)) = replay (records ixf) ∅
        /\ walFile (mgr (Go.shared c)) = wal
        /\ indexFile (mgr (Go.shared c)) = ixf
        /\ locked (mgr (Go.shared c)) = false
        /\ started useCommit c).
Proof.
  intros Hw Hi Hs. unfold NewIndexManager. rewrite Hw, Hi, Hs.
  unfold unsafeIsWALEmpty. simpl.
  split; intros Hrec.
  - rewrite bool_decide_eq_false_2 by exact Hrec. simpl.
    unfold RecoverFromCrash, loadIndex, performDump. simpl.
    destruct (writeFaults ixf) as [|[|] rest]; simpl;
      try (split; reflexivity);
      (repeat split; try reflexivity; do 3 eexists; reflexivity).
  - rewrite bool_decide_eq_true_2 by exact Hrec. simpl.
    eexists. split; [reflexivity|]. simpl.
    repeat split; try reflexivity. do 3 eexists; reflexivity.
Qed.

Lemma NewIndexManager_recovers_nonempty_wal_witness :
  (records crashed_wal <> [] ->
   match NewIndexManager crashed_fs true with
   | inr c =>
       let im := mgr (Go.shared c) in
       RecoverFromCrash (new_manager crashed_wal crashed_snapshot true)
       = (None, im)
       /\ hostIndex im
          = replay (records crashed_wal)
                   (replay (records crashed_snapshot) ∅)
       /\ records (walFile im) = []
       /\ records (indexFile im) = snapshot_entries (hostIndex im)
       /\ locked im = false
       /\ started true c
   | inl e =>
       e = Wrapped recover_failed ErrIO
       /\ fst (RecoverFromCrash
                 (new_manager crashed_wal crashed_snapshot true))
          = Some ErrIO
   end)
  /\ (records crashed_wal = [] ->
      exists c,
        NewIndexManager crashed_fs true = inr c
        /\ loadIndex (new_manager crashed_wal crashed_snapshot true)
           = (None, mgr (Go.shared c))
        /\ hostIndex (mgr (Go.shared c))
           = replay (records crashed_snapshot) ∅
        /\ walFile (mgr (Go.shared c)) = crashed_wal
        /\ indexFile (mgr (Go.shared c)) = crashed_snapshot
        /\ locked (mgr (Go.shared c)) = false
        /\ started true c).
Proof.
  apply (NewIndexManager_recovers_nonempty_wal crashed_fs true); reflexivity.
Defined.

(** The recovery of the witness: the snapshot's blob of host [g] and,
    of the two blobs the WAL adds to host [h], the one it does not pop. *)
Example recovery_after_crash :
  match NewIndexManager crashed_fs true with
  | inr c =>
      hostIndex (mgr (Go.shared c))
      = {[ "g" := [mkBlob "a" 0 1]; "h" := [mkBlob "b2" 10 20] ]}
      /\ records (indexFile (mgr (Go.shared c)))
         = [mkWALEntry OpAdd "g" "a" 0 1; mkWALEntry OpAdd "h" "b2" 10 20]
  | inl _ => False
  end.
Proof. vm_compute. split; reflexivity. Qed.

Lemma close_blocked_succ (t : goroutine) (m : memory) :
  stopChan (mgr m) = None -> close_blocked t ->
  match prog t m with
  | Go.Tau _ t' => close_blocked t'
  | Go.Make k => forall n, close_blocked (k n)
  | Go.Spawn g t' => close_blocked g /\ close_blocked t'
  | Go.Send (Some _) _ t' => close_blocked t'
  | Go.Recv alts d =>
      (forall a v, In a alts -> close_blocked (snd a v))
      /\ (forall t', d = Some t' -> close_blocked t')
  | Go.CloseCh _ t' => close_blocked t'
  | _ => True
  end.
Proof.
  intros HG HL.
  destruct t as [h|h uc|h uc b|h uc b w|fr|fr pc|fr pc|h b p s pc|n|cm pc|pc
                |e s pc|e s tk pc|tk|pc]; try destruct pc;
    unfold prog, pop_prog, index_pop, helper_prog, add_prog, walcommit_prog,
      await_prog, close_prog, forward_prog, dump_prog, ticker_prog, syncer_prog.
  all: crunch_succ; auto.
Qed.

Lemma close_blocked_ok (i : nat) (t : goroutine) (m : memory) :
  stopChan (mgr m) = None -> close_blocked t ->
  instr_ok prog (fun _ _ => True) (fun m => stopChan (mgr m) = None)
           (fun _ _ g => close_blocked g) i t m.
Proof.
  intros HG HL. unfold instr_ok.
  pose proof (close_blocked_succ t m HG HL) as Hs.
  destruct (prog t m) as [m' t'|k|g t'|[ch|] v t'|alts d|ch t'| | |] eqn:Hp;
    try exact Hs; try exact I.
  - intros _. apply prog_tau_channels in Hp. unfold channels in Hp.
    split; [congruence|]. split; [exact Hs|]. auto.
  - destruct Hs as [Hg Ht']. split; [exact Ht'|]. intros _. exact Hg.
Qed.

Lemma NewIndexManager_sync_mode (fs : FS) (c0 : config) :
  NewIndexManager fs false = inr c0 ->
  stopChan (mgr (Go.shared c0)) = None
  /\ Forall close_blocked (Go.threads c0).
Proof.
  unfold NewIndexManager.
  destruct (open_wal fs) as [?|wal]; [discriminate|].
  destruct (open_index fs) as [?|ixf]; [discriminate|].
  destruct (unsafeIsWALEmpty _ _) as [empty [?|]]; [discriminate|].
  destruct (negb empty).
  - unfold RecoverFromCrash, loadIndex, performDump. simpl.
    destruct (writeFaults ixf) as [|[|] ?]; simpl; intros [= <-]; simpl;
      (split; [reflexivity|repeat constructor]).
  - simpl. intros [= <-]. simpl. split; [reflexivity|repeat constructor].
Qed.

Lemma is_call_close_blocked (g : goroutine) : is_call g -> close_blocked g.
Proof.
  destruct g as [| | | | | | | | | |pc| | | |]; simpl; try tauto.
  destruct pc; simpl; tauto.
Qed.

(** C2 on the code.  A manager built without [useCommit] has a nil
    [stopChan].  Whatever calls its clients make and however the
    goroutines are scheduled, a [Close] never gets past its send on
    [stopChan]: every [Close] goroutine of every configuration that can be
    reached is still at its first instruction or blocked in that send, so
    none has stopped the syncer, taken the final snapshot, closed a file
    or returned. *)
Theorem Close_blocks_without_useCommit
    (fs : FS) (c0 c : config) (clients : list goroutine) :
  NewIndexManager fs false = inr c0 ->
  Forall is_call clients ->
  rtc (Go.step prog) (with_clients clients c0) c ->
  Forall close_blocked (Go.threads c).
Proof.
  intros Hnew Hcl Hrun.
  destruct (NewIndexManager_sync_mode fs c0 Hnew) as [Hstop Hboot].
  assert (Hinv : inv (fun m => stopChan (mgr m) = None)
                     (fun _ _ g => close_blocked g) c).
  { revert c Hrun. apply rtc_ind_r.
    - split; [exact Hstop|]. intros i t Hi. simpl in Hi.
      apply list_elem_of_lookup_2 in Hi. apply elem_of_app in Hi.
      destruct Hi as [Hi|Hi].
      + rewrite Forall_forall in Hboot. apply Hboot. exact Hi.
      + apply is_call_close_blocked. rewrite Forall_forall in Hcl.
        apply Hcl. exact Hi.
    - intros c1 c2 _ Hstep IH.
      eapply (step_inv prog (fun _ _ => True)); [|exact IH|exact Hstep|exact I].
      intros i t m. apply close_blocked_ok. }
  apply Forall_lookup. intros i t Hi. apply (proj2 Hinv i t Hi).
Qed.

Lemma Close_blocks_without_useCommit_witness :
  Forall close_blocked
         (Go.threads (Go.pick prog 1 (with_clients [GClose C_Start] sync_boot))).
Proof.
  apply (Close_blocks_without_useCommit fresh_fs sync_boot
           (Go.pick prog 1 (with_clients [GClose C_Start] sync_boot))
           [GClose C_Start]).
  - reflexivity.
  - repeat constructor.
  - apply rtc_once, pick_step. vm_compute. lia.
Defined.

(** The configuration of the witness: [Close] has stopped the ticker and
    is blocked in its send on the nil [stopChan], the forwarder waits on
    the same nil channel, and no goroutine can move. *)
Example Close_without_useCommit_deadlock :
  Go.threads (Go.pick prog 1 (with_clients [GClose C_Start] sync_boot))
  = [GTicker 0%nat; GForward 2%nat 1%nat F_Select;
     GDump 2%nat 1%nat 0%nat D_Select; GClose C_SendStop]
  /\ Go.steps prog (Go.pick prog 1 (with_clients [GClose C_Start] sync_boot))
     = [].
Proof. split; reflexivity. Qed.
